(** * WatchnLearn: the expiring cache and the download manifest

    A shallow embedding of the two local-state helpers of the application,
    [cache] and [downloads], over a model of the platform services they call
    (AsyncStorage, expo-file-system, [Date.now], [console.error], [JSON]).

    The helpers are asynchronous functions that await every platform call in
    sequence; one call of a helper is modelled as a computation in a state
    and exception monad over the [World] of the device.

    Contents: the device and the platform; the helpers [cache] and
    [downloads]; the vocabulary of the specification; a JSON codec that
    implements the [JSON] interface; the delete button and the ages of the
    Downloads screen; the properties of the codec, of the cache and of the
    manifest; the properties run on concrete devices; further properties
    of the helpers and of the screen. *)

From Stdlib Require Import ZArith Lia Ascii DecimalString DecimalZ.
From stdpp Require Import base option list gmap strings.

#[local] Set Warnings "-register-all".

Open Scope string_scope.
Open Scope Z_scope.

(** ** The device *)

(** What a rejected promise or a thrown exception carries. *)
Inductive error : Type :=
| StorageError
| FileSystemError
| SyntaxError
| TypeError.

(** The state the helpers read and write.
    - [storage]: AsyncStorage, a persistent map from string keys to strings;
    - [files]: the paths (files and directories) that exist on disk;
    - [clock]: the reading of [Date.now()], in milliseconds;
    - [faults]: the platform calls still to come that will reject
      ([true] rejects the next call, [false] lets it through; past the end
      of the list nothing rejects);
    - [console]: the lines written by [console.error], latest first. *)
Record World : Type := mkWorld {
  storage : gmap string string;
  files : gset string;
  clock : Z;
  faults : list bool;
  console : list string;
}.

Definition with_storage (s : gmap string string) (w : World) : World :=
  mkWorld s (files w) (clock w) (faults w) (console w).
Definition with_files (f : gset string) (w : World) : World :=
  mkWorld (storage w) f (clock w) (faults w) (console w).
Definition with_clock (t : Z) (w : World) : World :=
  mkWorld (storage w) (files w) t (faults w) (console w).
Definition with_faults (fs : list bool) (w : World) : World :=
  mkWorld (storage w) (files w) (clock w) fs (console w).
Definition with_console (c : list string) (w : World) : World :=
  mkWorld (storage w) (files w) (clock w) (faults w) c.

(** No platform call still to come rejects. *)
Definition reliable (w : World) : Prop := Forall (λ b, b = false) (faults w).

(** The world once the next platform call has consulted the fault list. *)
Definition tick (w : World) : World := with_faults (tail (faults w)) w.

(** ** Awaited computations *)

Inductive outcome (A : Type) : Type :=
| Returned (a : A)
| Thrown (e : error).
Arguments Returned {A} a.
Arguments Thrown {A} e.

Definition M (A : Type) : Type := World → outcome A * World.

Definition ret {A} (a : A) : M A := λ w, (Returned a, w).
Definition throw {A} (e : error) : M A := λ w, (Thrown e, w).
Definition bind {A B} (m : M A) (k : A → M B) : M B :=
  λ w, match m w with
       | (Returned a, w') => k a w'
       | (Thrown e, w') => (Thrown e, w')
       end.
(** [try { m } catch (error) { handler error }] *)
Definition try_catch {A} (m : M A) (handler : error → M A) : M A :=
  λ w, match m w with
       | (Returned a, w') => (Returned a, w')
       | (Thrown e, w') => handler e w'
       end.

Declare Scope js_scope.
Delimit Scope js_scope with js.
Notation "x <- m ;; k" := (bind m (λ x, k))
  (at level 100, m at next level, k at level 200, right associativity)
  : js_scope.
Notation "m ;; k" := (bind m (λ _, k))
  (at level 100, k at level 200, right associativity) : js_scope.
Open Scope js_scope.

(** The result and the final world of a computation. *)
Definition result {A} (m : M A) (w : World) : outcome A := (m w).1.
Definition after {A} (m : M A) (w : World) : World := (m w).2.

(** ** The platform *)

(** A platform call: it rejects when the fault list says so and leaves the
    device as it was, and runs [body] otherwise. *)
Definition platform {A} (e : error) (body : M A) : M A :=
  λ w, match faults w with
       | true :: _ => (Thrown e, tick w)
       | _ => body (tick w)
       end.

Definition Date_now : M Z := λ w, (Returned (clock w), w).

Definition console_error (message : string) : M unit :=
  λ w, (Returned (), with_console (message :: console w) w).

Module AsyncStorage.
Definition getItem (key : string) : M (option string) :=
  platform StorageError (λ w, (Returned (storage w !! key), w)).

Definition setItem (key value : string) : M unit :=
  platform StorageError
    (λ w, (Returned (), with_storage (<[key:=value]> (storage w)) w)).

Definition removeItem (key : string) : M unit :=
  platform StorageError
    (λ w, (Returned (), with_storage (delete key (storage w)) w)).

Definition getAllKeys : M (list string) :=
  platform StorageError (λ w, (Returned (map_to_list (storage w)).*1, w)).

Definition multiRemove (keys : list string) : M unit :=
  platform StorageError
    (λ w, (Returned (), with_storage (foldr delete (storage w) keys) w)).
End AsyncStorage.

(** [q] is [p] itself or lies in the directory [p]. *)
Definition under (p q : string) : bool :=
  bool_decide (q = p)
  || String.prefix (if String.prefix "/" (String.rev p) then p else p +:+ "/") q.

Module FileSystem.
(** [(await getInfoAsync(uri)).exists] *)
Definition getInfoAsync (fileUri : string) : M bool :=
  platform FileSystemError
    (λ w, (Returned (bool_decide (fileUri ∈ files w)), w)).

(** [makeDirectoryAsync(uri, { intermediates: true })] *)
Definition makeDirectoryAsync (fileUri : string) : M unit :=
  platform FileSystemError
    (λ w, (Returned (), with_files ({[fileUri]} ∪ files w) w)).

(** [(await downloadAsync(url, fileUri)).uri]: the resource is fetched and
    written at [fileUri], whose URI is returned. *)
Definition downloadAsync (url fileUri : string) : M string :=
  platform FileSystemError
    (λ w, (Returned fileUri, with_files ({[fileUri]} ∪ files w) w)).

(** [deleteAsync(uri, { idempotent: true })]: removes the file, or the
    directory with what it holds; a missing path is no error. *)
Definition deleteAsync (fileUri : string) : M unit :=
  platform FileSystemError
    (λ w, (Returned (),
           with_files (filter (λ q, under fileUri q = false) (files w)) w)).
End FileSystem.

(** [JSON.stringify] and [JSON.parse] at a TypeScript type [A]: the values
    the program serialises are typed, and the text it parses is cast to the
    type it expects.  [JSON_stringify] has no result on a value that cannot be
    serialised (it throws a TypeError).  [JSON_parse] has a result on the
    JSON of an [A], which is what the helpers write and read back, and none
    on a text that is not JSON (it throws a SyntaxError).  It has none either
    on the JSON of a value of another shape, which [JSON.parse] returns as it
    is and the code goes on with: there the model does not follow the code;
    no helper writes such an entry. *)
Class JSON (A : Type) : Type := {
  JSON_stringify : A → option string;
  JSON_parse : string → option A;
}.

(** What is assumed of them at the types the helpers store, whose values are
    JSON data: a serialised value parses back to itself, and no JSON text is
    the empty string. *)
Class JSONLawful (A : Type) `{!JSON A} : Prop := {
  JSON_parse_stringify :
    ∀ (a : A) (s : string), JSON_stringify a = Some s → JSON_parse s = Some a;
  JSON_stringify_nonempty : ∀ a : A, JSON_stringify a ≠ Some "";
}.

Module JSON_.
Definition stringify {A} `{!JSON A} (a : A) : M string :=
  match JSON_stringify a with
  | Some s => ret s
  | None => throw TypeError
  end.
Definition parse {A} `{!JSON A} (s : string) : M A :=
  match JSON_parse s with
  | Some a => ret a
  | None => throw SyntaxError
  end.
End JSON_.

(** JavaScript truthiness of a [string | null]: [null] and [""] are falsy. *)
Definition truthy (s : option string) : bool :=
  match s with
  | Some s => negb (bool_decide (s = ""))
  | None => false
  end.

(** ** The expiring cache *)

Definition CACHE_PREFIX : string := "@watchnlearn_cache_".
Definition CACHE_EXPIRY : Z := 24 * 60 * 60 * 1000.

Record CacheItem (T : Type) : Type := mkCacheItem {
  data : T;
  timestamp : Z;
}.
Arguments mkCacheItem {T} data timestamp.
Arguments data {T} c.
Arguments timestamp {T} c.

Module cache.
Section cache_ops.
Context {T : Type} `{!JSON (CacheItem T)}.

Definition set (key : string) (data : T) : M unit :=
  try_catch
    (now <- Date_now;;
     let cacheItem := mkCacheItem data now in
     text <- JSON_.stringify cacheItem;;
     AsyncStorage.setItem (CACHE_PREFIX +:+ key) text)
    (λ _, console_error "Error setting cache:").

Definition remove (key : string) : M unit :=
  try_catch
    (AsyncStorage.removeItem (CACHE_PREFIX +:+ key))
    (λ _, console_error "Error removing cache:").

Definition get (key : string) : M (option T) :=
  try_catch
    (cached <- AsyncStorage.getItem (CACHE_PREFIX +:+ key);;
     match cached with
     | Some text =>
         if negb (truthy cached) then ret None else
         cacheItem <- JSON_.parse text;;
         now <- Date_now;;
         if now - timestamp cacheItem >? CACHE_EXPIRY then
           remove key;;
           ret None
         else ret (Some (data cacheItem))
     | None => ret None
     end)
    (λ _, console_error "Error getting cache:";; ret None).

Definition clear : M unit :=
  try_catch
    (keys <- AsyncStorage.getAllKeys;;
     let cacheKeys := List.filter (λ key, String.prefix CACHE_PREFIX key) keys in
     AsyncStorage.multiRemove cacheKeys)
    (λ _, console_error "Error clearing cache:").
End cache_ops.
End cache.

Module cacheKeys.
Definition subjects (studentId : string) : string := "subjects_" +:+ studentId.
Definition enrollments (studentId : string) : string :=
  "enrollments_" +:+ studentId.
Definition terms (subjectId : string) : string := "terms_" +:+ subjectId.
Definition chapters (termId : string) : string := "chapters_" +:+ termId.
Definition topics (chapterId : string) : string := "topics_" +:+ chapterId.
Definition progress (studentId : string) : string := "progress_" +:+ studentId.
End cacheKeys.

(** ** The download manifest *)

Definition DOWNLOADS_KEY : string := "@watchnlearn_downloads".

Inductive MediaType : Type := video | pdf.

Record DownloadRecord : Type := mkDownloadRecord {
  id : string;
  name : string;
  type : MediaType;
  url : string;
  localUri : string;
  downloadedAt : Z;
}.

(** [records.find(r => r.id === id) || null] *)
Definition find_record (i : string) (records : list DownloadRecord)
  : option DownloadRecord :=
  List.find (λ r, bool_decide (id r = i)) records.

(** [records.findIndex(r => r.id === id)]: the first index, or [-1]. *)
Fixpoint findIndex (i : string) (records : list DownloadRecord) : Z :=
  match records with
  | [] => -1
  | r :: rest =>
      if bool_decide (id r = i) then 0
      else let k := findIndex i rest in if k <? 0 then -1 else k + 1
  end.

Module downloads.
Section downloads_ops.
(** [FileSystem.documentDirectory], a constant of the platform. *)
Variable documentDirectory : string.
Context `{!JSON (list DownloadRecord)}.

Definition DOWNLOADS_DIR : string := documentDirectory +:+ "downloads/".

Definition init : M unit :=
  try_catch
    (dirInfo_exists <- FileSystem.getInfoAsync DOWNLOADS_DIR;;
     if negb dirInfo_exists then FileSystem.makeDirectoryAsync DOWNLOADS_DIR
     else ret ())
    (λ _, console_error "Error initializing downloads directory:").

Definition getAllRecords : M (list DownloadRecord) :=
  try_catch
    (data <- AsyncStorage.getItem DOWNLOADS_KEY;;
     match data with
     | Some text => if truthy data then JSON_.parse text else ret []
     | None => ret []
     end)
    (λ _, console_error "Error getting download records:";; ret []).

Definition saveAllRecords (records : list DownloadRecord) : M unit :=
  try_catch
    (text <- JSON_.stringify records;;
     AsyncStorage.setItem DOWNLOADS_KEY text)
    (λ _, console_error "Error saving download records:").

Definition saveRecord (record : DownloadRecord) : M unit :=
  try_catch
    (records <- getAllRecords;;
     let existingIndex := findIndex (id record) records in
     let records :=
       if 0 <=? existingIndex
       then <[Z.to_nat existingIndex := record]> records
       else (records ++ [record])%list in
     saveAllRecords records)
    (λ _, console_error "Error saving download record:").

Definition download (id name url : string) (type : MediaType)
  : M (option string) :=
  try_catch
    (init;;
     let extension := match type with video => ".mp4" | pdf => ".pdf" end in
     let filename := id +:+ extension in
     let localUri := DOWNLOADS_DIR +:+ filename in
     uri <- FileSystem.downloadAsync url localUri;;
     now <- Date_now;;
     let record := mkDownloadRecord id name type url uri now in
     saveRecord record;;
     ret (Some uri))
    (λ _, console_error "Error downloading file:";; ret None).

Definition getDownload (id : string) : M (option DownloadRecord) :=
  try_catch
    (records <- getAllRecords;;
     ret (find_record id records))
    (λ _, console_error "Error getting download:";; ret None).

Definition isDownloaded (id : string) : M bool :=
  record <- getDownload id;;
  match record with
  | None => ret false
  | Some record => FileSystem.getInfoAsync (localUri record)
  end.

Definition deleteDownload (i : string) : M unit :=
  try_catch
    (record <- getDownload i;;
     match record with
     | None => ret ()
     | Some record =>
         FileSystem.deleteAsync (localUri record);;
         records <- getAllRecords;;
         let updatedRecords :=
           List.filter (λ r, negb (bool_decide (id r = i))) records in
         saveAllRecords updatedRecords
     end)
    (λ _, console_error "Error deleting download:").

Definition clearAll : M unit :=
  try_catch
    (FileSystem.deleteAsync DOWNLOADS_DIR;;
     AsyncStorage.removeItem DOWNLOADS_KEY;;
     init)
    (λ _, console_error "Error clearing downloads:").
End downloads_ops.
End downloads.


(** * The vocabulary of the specification *)

Section cache_vocabulary.
Context {T : Type} `{!JSON (CacheItem T)}.

(** A payload is serialisable when [JSON.stringify] accepts the cache item
    built around it. *)
Definition serializable (value : T) : Prop :=
  ∀ t, is_Some (JSON_stringify (mkCacheItem value t)).
End cache_vocabulary.

(** Plain data (strings, numbers, and the arrays and records made of them)
    always serialises. *)
Class JSONPlain (A : Type) `{!JSON A} : Prop :=
  JSON_stringify_total : ∀ a : A, is_Some (JSON_stringify a).

Section manifest_vocabulary.
Context `{!JSON (list DownloadRecord)}.

(** The manifest a storage holds: the records under [DOWNLOADS_KEY], none
    when the key is missing or its text is empty or unreadable. *)
Definition manifest_of (s : gmap string string) : list DownloadRecord :=
  match s !! DOWNLOADS_KEY with
  | Some text =>
      if truthy (Some text) then default [] (JSON_parse text) else []
  | None => []
  end.

Definition manifest (w : World) : list DownloadRecord :=
  manifest_of (storage w).
End manifest_vocabulary.

(** At most one record per id. *)
Definition distinct_ids (records : list DownloadRecord) : Prop :=
  NoDup (id <$> records).

(** The records of a list that carry the id [i]. *)
Definition records_of (i : string) (records : list DownloadRecord)
  : list DownloadRecord :=
  List.filter (λ r, bool_decide (id r = i)) records.

(** The list [saveRecord] writes back, given the list it read. *)
Definition upsert (record : DownloadRecord) (records : list DownloadRecord)
  : list DownloadRecord :=
  let existingIndex := findIndex (id record) records in
  if 0 <=? existingIndex
  then <[Z.to_nat existingIndex := record]> records
  else (records ++ [record])%list.

(** The calls a screen can make on the two helpers. *)
Inductive call (T : Type) : Type :=
| cache_set (key : string) (data : T)
| cache_get (key : string)
| cache_remove (key : string)
| cache_clear
| downloads_init
| downloads_download (id name url : string) (type : MediaType)
| downloads_getDownload (id : string)
| downloads_isDownloaded (id : string)
| downloads_deleteDownload (id : string)
| downloads_getAllRecords
| downloads_saveRecord (record : DownloadRecord)
| downloads_saveAllRecords (records : list DownloadRecord)
| downloads_clearAll.
Arguments cache_set {T} key data.
Arguments cache_get {T} key.
Arguments cache_remove {T} key.
Arguments cache_clear {T}.
Arguments downloads_init {T}.
Arguments downloads_download {T} id name url type.
Arguments downloads_getDownload {T} id.
Arguments downloads_isDownloaded {T} id.
Arguments downloads_deleteDownload {T} id.
Arguments downloads_getAllRecords {T}.
Arguments downloads_saveRecord {T} record.
Arguments downloads_saveAllRecords {T} records.
Arguments downloads_clearAll {T}.

Section calls.
Context {T : Type} `{!JSON (CacheItem T)} `{!JSON (list DownloadRecord)}.
Variable documentDirectory : string.

(** The device after a call, whatever the call returned or threw. *)
Definition perform (c : call T) (w : World) : World :=
  match c with
  | cache_set key data => after (cache.set key data) w
  | cache_get key => after (cache.get (T:=T) key) w
  | cache_remove key => after (cache.remove key) w
  | cache_clear => after cache.clear w
  | downloads_init => after (downloads.init documentDirectory) w
  | downloads_download id name url type =>
      after (downloads.download documentDirectory id name url type) w
  | downloads_getDownload id => after (downloads.getDownload id) w
  | downloads_isDownloaded id => after (downloads.isDownloaded id) w
  | downloads_deleteDownload id => after (downloads.deleteDownload id) w
  | downloads_getAllRecords => after downloads.getAllRecords w
  | downloads_saveRecord record => after (downloads.saveRecord record) w
  | downloads_saveAllRecords records =>
      after (downloads.saveAllRecords records) w
  | downloads_clearAll => after (downloads.clearAll documentDirectory) w
  end.

(** A call other than a direct [saveAllRecords] of a list that repeats an
    id. *)
Definition keeps_ids_distinct (c : call T) : Prop :=
  match c with
  | downloads_saveAllRecords records => distinct_ids records
  | _ => True
  end.

(** One thing happens on the device: a call is made, or the world around
    the storage moves (time passes, files come and go, the platform calls
    to come succeed or reject differently). *)
Inductive happens (ok : call T → Prop) : World → World → Prop :=
| happens_call c w : ok c → happens ok w (perform c w)
| happens_around w w' : storage w' = storage w → happens ok w w'.
End calls.

(** Devices to run the helpers on: a fresh installation, on which no
    platform call rejects, and the payload of a cached query. *)
Definition fresh_install : World :=
  mkWorld ∅ ∅ 1700000000000 [] [].

Definition elapse (milliseconds : Z) (w : World) : World :=
  with_clock (clock w + milliseconds) w.

(** [w'] is [w] up to the console and the faults consumed. *)
Definition quiet (w w' : World) : Prop :=
  storage w' = storage w ∧ files w' = files w ∧ clock w' = clock w
  ∧ (reliable w → reliable w').

Section rewritten_vocabulary.
Context `{!JSON (list DownloadRecord)}.

(** The storage [s'] is [s] with the text of [records] under
    [DOWNLOADS_KEY]. *)
Definition written (records : list DownloadRecord)
  (s s' : gmap string string) : Prop :=
  ∃ text, JSON_stringify records = Some text
          ∧ s' = <[DOWNLOADS_KEY := text]> s.

(** [w'] is [w] after an attempt to replace the manifest by [records]: the
    attempt succeeds when nothing rejects. *)
Definition rewritten (records : list DownloadRecord) (w w' : World) : Prop :=
  files w' = files w ∧ clock w' = clock w
  ∧ (reliable w → reliable w')
  ∧ (storage w' = storage w ∨ written records (storage w) (storage w'))
  ∧ (reliable w → written records (storage w) (storage w')).
End rewritten_vocabulary.

(** [extension] in [download]. *)
Definition extension_of (type : MediaType) : string :=
  match type with video => ".mp4" | pdf => ".pdf" end.

Section outcomes.
Context {T : Type} `{!JSON (CacheItem T)} `{!JSON (list DownloadRecord)}.
Variable documentDirectory : string.

Definition forget {A} (o : outcome A) : outcome unit :=
  match o with
  | Returned _ => Returned ()
  | Thrown e => Thrown e
  end.

(** How a call ends for the screen that awaits it: it returns, or it throws
    (the promise rejects). *)
Definition completion (c : call T) (w : World) : outcome unit :=
  match c with
  | cache_set key data => forget (result (cache.set key data) w)
  | cache_get key => forget (result (cache.get (T:=T) key) w)
  | cache_remove key => forget (result (cache.remove key) w)
  | cache_clear => forget (result cache.clear w)
  | downloads_init => forget (result (downloads.init documentDirectory) w)
  | downloads_download id name url type =>
      forget (result (downloads.download documentDirectory id name url type) w)
  | downloads_getDownload id => forget (result (downloads.getDownload id) w)
  | downloads_isDownloaded id => forget (result (downloads.isDownloaded id) w)
  | downloads_deleteDownload id =>
      forget (result (downloads.deleteDownload id) w)
  | downloads_getAllRecords => forget (result downloads.getAllRecords w)
  | downloads_saveRecord record =>
      forget (result (downloads.saveRecord record) w)
  | downloads_saveAllRecords records =>
      forget (result (downloads.saveAllRecords records) w)
  | downloads_clearAll => forget (result (downloads.clearAll documentDirectory) w)
  end.

(** The calls whose body is wrapped in [try]/[catch]: all but
    [isDownloaded]. *)
Definition guarded (c : call T) : bool :=
  match c with
  | downloads_isDownloaded _ => false
  | _ => true
  end.
End outcomes.

(** * A JSON codec

    An implementation of the [JSON] interface on a fragment of JSON (integer
    numbers; strings in which only the quote and the backslash are escaped; no
    white space), at the two types the helpers serialise.  It shows that the
    assumptions of the interface can be met and gives the statements about
    the helpers concrete devices to run on. *)

Module MiniJSON.

Inductive json : Type :=
| JNull
| JBool (b : bool)
| JNumber (n : Z)
| JString (s : string)
| JArray (items : list json)
| JObject (members : list (string * json)).

Definition dquote : ascii := "034"%char.
Definition backslash : ascii := "092"%char.

Definition is_number_char (c : ascii) : bool :=
  existsb (Ascii.eqb c) (String.list_ascii_of_string "-0123456789").

(** *** Printing, in front of the text that follows *)

Fixpoint emit_chars (s : string) (rest : string) : string :=
  match s with
  | EmptyString => String dquote rest
  | String c s' =>
      if Ascii.eqb c dquote || Ascii.eqb c backslash
      then String backslash (String c (emit_chars s' rest))
      else String c (emit_chars s' rest)
  end.

Definition emit_string (s : string) (rest : string) : string :=
  String dquote (emit_chars s rest).

Definition emit_number (n : Z) (rest : string) : string :=
  NilZero.string_of_int (Z.to_int n) +:+ rest.

Fixpoint emit (v : json) (rest : string) : string :=
  match v with
  | JNull => "null" +:+ rest
  | JBool true => "true" +:+ rest
  | JBool false => "false" +:+ rest
  | JNumber n => emit_number n rest
  | JString s => emit_string s rest
  | JArray [] => "[]" +:+ rest
  | JArray (v :: items) =>
      String "[" (emit v
        (foldr (λ v k, String "," (emit v k)) (String "]" rest) items))
  | JObject [] => "{}" +:+ rest
  | JObject ((key, v) :: members) =>
      String "{" (emit_string key (String ":" (emit v
        (foldr (λ m k, String "," (emit_string m.1 (String ":" (emit m.2 k))))
           (String "}" rest) members))))
  end.

Definition emit_items (items : list json) (rest : string) : string :=
  foldr (λ v k, String "," (emit v k)) (String "]" rest) items.

Definition emit_members (members : list (string * json)) (rest : string)
  : string :=
  foldr (λ m k, String "," (emit_string m.1 (String ":" (emit m.2 k))))
    (String "}" rest) members.

Definition print (v : json) : string := emit v "".

(** *** Parsing *)

Fixpoint strip (p s : string) : option string :=
  match p, s with
  | EmptyString, _ => Some s
  | String a p', String b s' => if Ascii.eqb a b then strip p' s' else None
  | String _ _, EmptyString => None
  end.

(** The characters up to the closing quote, unescaped, and what follows. *)
Fixpoint parse_chars (s : string) : option (string * string) :=
  match s with
  | EmptyString => None
  | String c rest =>
      if Ascii.eqb c dquote then Some (EmptyString, rest)
      else if Ascii.eqb c backslash then
        match rest with
        | String c' rest' =>
            if Ascii.eqb c' dquote || Ascii.eqb c' backslash then
              match parse_chars rest' with
              | Some (str, r) => Some (String c' str, r)
              | None => None
              end
            else None
        | EmptyString => None
        end
      else
        match parse_chars rest with
        | Some (str, r) => Some (String c str, r)
        | None => None
        end
  end.

Definition parse_string (s : string) : option (string * string) :=
  match s with
  | String c rest => if Ascii.eqb c dquote then parse_chars rest else None
  | EmptyString => None
  end.

Fixpoint span_number (s : string) : string * string :=
  match s with
  | String c rest =>
      if is_number_char c
      then let '(digits, r) := span_number rest in (String c digits, r)
      else (EmptyString, s)
  | EmptyString => (EmptyString, EmptyString)
  end.

(** The text that follows a number does not start like one. *)
Definition delimited (rest : string) : Prop :=
  span_number rest = (EmptyString, rest).

Definition parse_number (s : string) : option (Z * string) :=
  let '(digits, rest) := span_number s in
  match NilZero.int_of_string digits with
  | Some i => Some (Z.of_int i, rest)
  | None => None
  end.

Fixpoint parse_value (fuel : nat) (s : string) : option (json * string) :=
  match fuel with
  | O => None
  | S fuel =>
      match s with
      | EmptyString => None
      | String c rest =>
          if is_number_char c then
            match parse_number s with
            | Some (n, r) => Some (JNumber n, r)
            | None => None
            end
          else if Ascii.eqb c "n" then
            match strip "ull" rest with Some r => Some (JNull, r) | None => None end
          else if Ascii.eqb c "t" then
            match strip "rue" rest with Some r => Some (JBool true, r) | None => None end
          else if Ascii.eqb c "f" then
            match strip "alse" rest with Some r => Some (JBool false, r) | None => None end
          else if Ascii.eqb c dquote then
            match parse_chars rest with
            | Some (str, r) => Some (JString str, r)
            | None => None
            end
          else if Ascii.eqb c "[" then
            match strip "]" rest with
            | Some r => Some (JArray [], r)
            | None =>
                match parse_value fuel rest with
                | Some (v, r) =>
                    match parse_items fuel r with
                    | Some (items, r') => Some (JArray (v :: items), r')
                    | None => None
                    end
                | None => None
                end
            end
          else if Ascii.eqb c "{" then
            match strip "}" rest with
            | Some r => Some (JObject [], r)
            | None =>
                match parse_member fuel rest with
                | Some (m, r) =>
                    match parse_members fuel r with
                    | Some (members, r') => Some (JObject (m :: members), r')
                    | None => None
                    end
                | None => None
                end
            end
          else None
      end
  end
with parse_items (fuel : nat) (s : string) : option (list json * string) :=
  match fuel with
  | O => None
  | S fuel =>
      match s with
      | EmptyString => None
      | String c rest =>
          if Ascii.eqb c "]" then Some ([], rest)
          else if Ascii.eqb c "," then
            match parse_value fuel rest with
            | Some (v, r) =>
                match parse_items fuel r with
                | Some (items, r') => Some (v :: items, r')
                | None => None
                end
            | None => None
            end
          else None
      end
  end
with parse_member (fuel : nat) (s : string) : option ((string * json) * string) :=
  match fuel with
  | O => None
  | S fuel =>
      match parse_string s with
      | Some (key, r) =>
          match strip ":" r with
          | Some r' =>
              match parse_value fuel r' with
              | Some (v, r'') => Some ((key, v), r'')
              | None => None
              end
          | None => None
          end
      | None => None
      end
  end
with parse_members (fuel : nat) (s : string)
  : option (list (string * json) * string) :=
  match fuel with
  | O => None
  | S fuel =>
      match s with
      | EmptyString => None
      | String c rest =>
          if Ascii.eqb c "}" then Some ([], rest)
          else if Ascii.eqb c "," then
            match parse_member fuel rest with
            | Some (m, r) =>
                match parse_members fuel r with
                | Some (members, r') => Some (m :: members, r')
                | None => None
                end
            | None => None
            end
          else None
      end
  end.

(** The value a whole text denotes. *)
Definition parse (s : string) : option json :=
  match parse_value (String.length s) s with
  | Some (v, EmptyString) => Some v
  | _ => None
  end.

(** The fuel that parsing the text of a value takes. *)
Fixpoint need (v : json) : nat :=
  match v with
  | JArray (v :: items) =>
      S (need v + foldr (λ v n, S (need v + n)) 1%nat items)
  | JObject ((_, v) :: members) =>
      S (S (need v) + foldr (λ m n, S (S (need m.2) + n)) 1%nat members)
  | _ => 1%nat
  end.

Definition need_items (items : list json) : nat :=
  foldr (λ v n, S (need v + n)) 1%nat items.

Definition need_members (members : list (string * json)) : nat :=
  foldr (λ m n, S (S (need m.2) + n)) 1%nat members.

(** *** The two types of the helpers *)

Definition encode_item (item : CacheItem json) : json :=
  JObject [("data", data item); ("timestamp", JNumber (timestamp item))].

Definition decode_item (v : json) : option (CacheItem json) :=
  match v with
  | JObject [(k1, d); (k2, JNumber t)] =>
      if bool_decide (k1 = "data") && bool_decide (k2 = "timestamp")
      then Some (mkCacheItem d t) else None
  | _ => None
  end.

Definition encode_type (t : MediaType) : json :=
  JString (match t with video => "video" | pdf => "pdf" end).

Definition decode_type (v : json) : option MediaType :=
  match v with
  | JString s =>
      if bool_decide (s = "video") then Some video
      else if bool_decide (s = "pdf") then Some pdf
      else None
  | _ => None
  end.

Definition encode_record (r : DownloadRecord) : json :=
  JObject [("id", JString (id r)); ("name", JString (name r));
           ("type", encode_type (type r)); ("url", JString (url r));
           ("localUri", JString (localUri r));
           ("downloadedAt", JNumber (downloadedAt r))].

Definition decode_record (v : json) : option DownloadRecord :=
  match v with
  | JObject [(k1, JString i); (k2, JString n); (k3, t); (k4, JString u);
             (k5, JString l); (k6, JNumber d)] =>
      if bool_decide ([k1; k2; k3; k4; k5; k6]
                      = ["id"; "name"; "type"; "url"; "localUri"; "downloadedAt"])
      then match decode_type t with
           | Some t => Some (mkDownloadRecord i n t u l d)
           | None => None
           end
      else None
  | _ => None
  end.

Definition encode_records (records : list DownloadRecord) : json :=
  JArray (encode_record <$> records).

Definition decode_records (v : json) : option (list DownloadRecord) :=
  match v with
  | JArray items => mapM decode_record items
  | _ => None
  end.

#[global] Instance item_JSON : JSON (CacheItem json) := {|
  JSON_stringify item := Some (print (encode_item item));
  JSON_parse s := match parse s with Some v => decode_item v | None => None end;
|}.

#[global] Instance records_JSON : JSON (list DownloadRecord) := {|
  JSON_stringify records := Some (print (encode_records records));
  JSON_parse s := match parse s with Some v => decode_records v | None => None end;
|}.

End MiniJSON.

(** The cached query of the topics of a chapter: its key, its payload, and
    the device once it has been cached on a fresh installation. *)
Definition topics_key : string := cacheKeys.topics "abc".

Definition topics_payload : MiniJSON.json :=
  MiniJSON.JArray [MiniJSON.JObject [("id", MiniJSON.JString "t1")]].

Definition topics_cached : World :=
  after (cache.set topics_key topics_payload) fresh_install.

(** A document directory and a lesson to download. *)
Definition documents : string := "file:///data/user/0/host.exp.exponent/files/".

Definition lesson : DownloadRecord :=
  mkDownloadRecord "t1" "Fractions" video "https://cdn.example/t1.mp4"
    (downloads.DOWNLOADS_DIR documents +:+ "t1.mp4") 1700000000000.

(** The device after the lesson has been downloaded on a fresh
    installation. *)
Definition lesson_downloaded : World :=
  after (downloads.download documents "t1" "Fractions"
           "https://cdn.example/t1.mp4" video) fresh_install.

(** The same device when the next platform call but one (the second) will
    reject. *)
Definition lesson_downloaded_failing_disk : World :=
  with_faults [false; true] lesson_downloaded.

(** The same device once the file of the lesson has been removed from
    outside the application. *)
Definition lesson_file_removed : World :=
  with_files (files lesson_downloaded ∖ {[localUri lesson]}) lesson_downloaded.

(** A fresh installation on which the fifth platform call, the write of the
    manifest, will reject. *)
Definition fresh_install_full_storage : World :=
  with_faults [false; false; false; false; true] fresh_install.

(** * Further vocabulary: what a computation leaves alone *)

(** A computation keeps a relation between the device before it and the
    device after it, however it ends. *)
Definition keeps {A} (R : World → World → Prop) (m : M A) : Prop :=
  ∀ w, R w (after m w).

(** The storage entries whose key is not in [K] are the same. *)
Definition same_outside (K : string → Prop) (w w' : World) : Prop :=
  ∀ k, ¬ K k → storage w' !! k = storage w !! k.

(** The files are the same; no file has gone. *)
Definition same_files (w w' : World) : Prop := files w' = files w.
Definition no_file_lost (w w' : World) : Prop := files w ⊆ files w'.

(** The relations that computations can keep: what holds of a device and
    itself, composes, and is blind to the faults consumed and to the
    console. *)
Class Frame (R : World → World → Prop) : Prop := {
  frame_refl : ∀ w, R w w;
  frame_trans : ∀ w1 w2 w3, R w1 w2 → R w2 w3 → R w1 w3;
  frame_tick : ∀ w, R w (tick w);
  frame_console : ∀ c w, R w (with_console c w);
}.

(** The platform call to come after [k] others will be rejected. *)
Definition rejects (k : nat) (w : World) : Prop := faults w !! k = Some true.

(** ** The texts [JSON.parse] is given

    The entries on which [JSON_parse] follows [JSON.parse]: the texts that
    are not JSON, of which the garbled ones are told by their first
    character, and the JSON of a value of the type expected, as the helpers
    write it. *)

(** The characters a JSON text can start with: white space, and the first
    character of a number, of a literal, of a string, of an array and of an
    object. *)
Definition starts_JSON (c : ascii) : bool :=
  existsb (Ascii.eqb c)
    ([" "; "009"; "010"; "013"; "034"]%char
     ++ String.list_ascii_of_string "-0123456789ntf[{").

(** A text that no JSON text starts like: [JSON.parse] throws a SyntaxError
    on it, whatever the type expected. *)
Definition garbled (text : string) : bool :=
  match text with
  | EmptyString => true
  | String c _ => negb (starts_JSON c)
  end.

(** [JSON_parse] has no result on a garbled text. *)
Class JSONStrict (A : Type) `{!JSON A} : Prop :=
  JSON_parse_garbled : ∀ text, garbled text = true → JSON_parse (A:=A) text = None.

Section readable_manifest.
Context `{!JSON (list DownloadRecord)}.

(** The manifest entry is absent, empty, or the JSON of a list of records,
    as [saveAllRecords] writes it. *)
Definition manifest_readable (w : World) : Prop :=
  match storage w !! DOWNLOADS_KEY with
  | Some text => text = "" ∨ is_Some (JSON_parse (A:=list DownloadRecord) text)
  | None => True
  end.
End readable_manifest.

Section call_kinds.
Context {T : Type}.

(** The calls on [cache], as opposed to those on [downloads]. *)
Definition is_cache_call (c : call T) : bool :=
  match c with
  | cache_set _ _ | cache_get _ | cache_remove _ | cache_clear => true
  | _ => false
  end.
End call_kinds.

(** The kinds of query the application caches, and the key [cacheKeys]
    builds for each. *)
Inductive query : Type :=
| Subjects | Enrollments | Terms | Chapters | Topics | Progress.

Definition key_of (q : query) (id : string) : string :=
  match q with
  | Subjects => cacheKeys.subjects id
  | Enrollments => cacheKeys.enrollments id
  | Terms => cacheKeys.terms id
  | Chapters => cacheKeys.chapters id
  | Topics => cacheKeys.topics id
  | Progress => cacheKeys.progress id
  end.

(** * The Downloads screen

    The screen of the application that lists the files of the downloads
    directory and deletes them ([app/(tabs)/downloads.tsx]); of it, the
    handler of the delete button and the age shown beside a file. *)

Module DownloadsScreen.

Record DownloadedFile : Type := mkDownloadedFile {
  id : string;
  name : string;
  type : MediaType;
  size : string;
  downloadedAt : Z;
  uri : string;
}.

(** The state of the screen: the [downloads] it lists, and the alerts it
    has raised, latest first. *)
Record Screen : Type := mkScreen {
  downloads : list DownloadedFile;
  alerts : list string;
}.

(** [FileSystem.deleteAsync(uri)] without [idempotent]: it rejects when
    there is nothing at the path. *)
Definition deleteAsync (fileUri : string) : M unit :=
  platform FileSystemError
    (λ w, if bool_decide (fileUri ∈ files w)
          then (Returned (),
                with_files (filter (λ q, under fileUri q = false) (files w)) w)
          else (Thrown FileSystemError, w)).

Definition handleDelete (file : DownloadedFile) (screen : Screen) : M Screen :=
  try_catch
    (deleteAsync (uri file);;
     ret (mkScreen
            (List.filter (λ d, negb (bool_decide (id d = id file)))
               (downloads screen))
            (alerts screen)))
    (λ _, console_error "Error deleting file:";;
          ret (mkScreen (downloads screen)
                 ("Failed to delete file" :: alerts screen))).

(** [`${n}`] for an integer [n]. *)
Definition number_text (n : Z) : string :=
  NilZero.string_of_int (Z.to_int n).

(** [formatDate(date)], the date being given by its time value in
    milliseconds; [toLocaleDateString] is the platform's. *)
Definition formatDate (toLocaleDateString : Z → string) (date : Z) : M string :=
  now <- Date_now;;
  let diffMs := now - date in
  let diffMins := diffMs / 60000 in
  let diffHours := diffMs / 3600000 in
  let diffDays := diffMs / 86400000 in
  if diffMins <? 1 then ret "Just now"
  else if diffMins <? 60 then ret (number_text diffMins +:+ "m ago")
  else if diffHours <? 24 then ret (number_text diffHours +:+ "h ago")
  else if diffDays <? 7 then ret (number_text diffDays +:+ "d ago")
  else ret (toLocaleDateString date).

End DownloadsScreen.

(** * Further devices *)

(** The device that holds both the downloaded lesson and the cached
    topics. *)
Definition lesson_and_topics : World :=
  after (cache.set topics_key topics_payload) lesson_downloaded.

(** A fresh installation but for an entry, under the key of the topics,
    whose text is not JSON. *)
Definition topics_undefined : World :=
  with_storage {[CACHE_PREFIX +:+ topics_key := "undefined"]} fresh_install.

(** The device with the cached topics when the next platform call will
    reject. *)
Definition topics_cached_failing_storage : World :=
  with_faults [true] topics_cached.

(** A second lesson, a document. *)
Definition handout : DownloadRecord :=
  mkDownloadRecord "p7" "Fractions, exercises" pdf
    "https://cdn.example/p7.pdf"
    (downloads.DOWNLOADS_DIR documents +:+ "p7.pdf") 1700000600000.

(** The device with the downloaded lesson when the next platform call, the
    read of the manifest, will reject, and the one after will not. *)
Definition lesson_downloaded_failing_read : World :=
  with_faults [true; false] lesson_downloaded.

(** The same device when the fourth platform call, the write of the
    manifest by [deleteDownload], will reject. *)
Definition lesson_downloaded_failing_write : World :=
  with_faults [false; false; false; true] lesson_downloaded.

(** The Downloads screen listing the file of the lesson. *)
Definition lesson_listed : DownloadsScreen.DownloadedFile :=
  DownloadsScreen.mkDownloadedFile "t1.mp4" "t1.mp4" video "12.4 MB"
    1700000000000 (localUri lesson).

Definition downloads_listed : DownloadsScreen.Screen :=
  DownloadsScreen.mkScreen [lesson_listed] [].

(** A fresh installation on which the third platform call, the fetch of the
    file by [download], will reject. *)
Definition fresh_install_offline : World :=
  with_faults [false; false; true] fresh_install.

(** The device with the cached topics, twenty-five hours after, when the
    second platform call, the removal of the entry, will reject. *)
Definition topics_expired_failing_removal : World :=
  with_faults [false; true] (elapse 90000000 topics_cached).

(** A fresh installation on which the fourth platform call, the read of the
    manifest by [saveRecord], will reject. *)
Definition fresh_install_failing_read : World :=
  with_faults [false; false; false; true; false] fresh_install.

(** * Properties *)

(** ** The JSON codec: printed values parse back *)

Module MiniJSON_facts.
Import MiniJSON.

#[local] Arguments String.append !s1 s2 / : simpl nomatch.

Lemma span_uint d rest :
  delimited rest →
  span_number (NilEmpty.string_of_uint d +:+ rest)
    = (NilEmpty.string_of_uint d, rest).
Proof.
  intros Hrest. induction d; simpl; [done|..]; by rewrite IHd.
Qed.

Lemma span_int d rest :
  delimited rest →
  span_number (NilZero.string_of_int d +:+ rest)
    = (NilZero.string_of_int d, rest).
Proof.
  intros Hrest. unfold NilZero.string_of_int, NilZero.string_of_uint.
  destruct d as [u|u]; destruct u;
    try (by apply span_uint); try (by simpl; rewrite span_uint);
    simpl; by rewrite Hrest.
Qed.

Lemma int_of_string_of_int d :
  ∃ d', NilZero.int_of_string (NilZero.string_of_int d) = Some d'
        ∧ Z.of_int d' = Z.of_int d.
Proof.
  destruct d as [[]|[]]; try (by eexists);
    (eexists; split; [by apply NilZero.isi|done]).
Qed.

Lemma parse_emit_number n rest :
  delimited rest → parse_number (emit_number n rest) = Some (n, rest).
Proof.
  intros Hrest. unfold parse_number, emit_number. rewrite span_int by done.
  destruct (int_of_string_of_int (Z.to_int n)) as (d' & -> & Hd').
  by rewrite Hd', DecimalZ.of_to.
Qed.

(** A printed number starts with a sign or a digit. *)
Lemma emit_number_head n rest :
  ∃ c s, emit_number n rest = String c s ∧ is_number_char c = true.
Proof.
  unfold emit_number. destruct (Z.to_int n) as [u|u]; simpl.
  - destruct u; simpl; eauto.
  - eauto.
Qed.

Lemma parse_emit_chars s rest :
  parse_chars (emit_chars s rest) = Some (s, rest).
Proof.
  induction s as [|c s IH]; simpl; [done|].
  destruct (Ascii.eqb c dquote) eqn:Hq; simpl.
  - by rewrite Hq, IH.
  - destruct (Ascii.eqb c backslash) eqn:Hb; simpl.
    + by rewrite Hb, orb_true_r, IH.
    + by rewrite Hq, Hb, IH.
Qed.

Lemma parse_emit_string s rest :
  parse_string (emit_string s rest) = Some (s, rest).
Proof. apply parse_emit_chars. Qed.

(** No printed value starts with a closing bracket. *)
Lemma strip_bracket_emit v k : strip "]" (emit v k) = None.
Proof.
  destruct v as [|[]|n|s|[|v items]|[|[key v] members]]; try done.
  destruct (emit_number_head n k) as (c & s & Heq & Hc).
  change (emit (JNumber n) k) with (emit_number n k). rewrite Heq.
  cbn [strip]. destruct (Ascii.eqb_spec "]" c) as [<-|]; done.
Qed.

Lemma delimited_items items rest : delimited (emit_items items rest).
Proof. by destruct items. Qed.

Lemma delimited_members members rest : delimited (emit_members members rest).
Proof. by destruct members. Qed.

Lemma parse_emit_fuel (fuel : nat) :
  (∀ v rest, (need v ≤ fuel)%nat → delimited rest →
     parse_value fuel (emit v rest) = Some (v, rest))
  ∧ (∀ items rest, (need_items items ≤ fuel)%nat →
     parse_items fuel (emit_items items rest) = Some (items, rest))
  ∧ (∀ m rest, (S (need m.2) ≤ fuel)%nat → delimited rest →
     parse_member fuel (emit_string m.1 (String ":" (emit m.2 rest)))
       = Some (m, rest))
  ∧ (∀ members rest, (need_members members ≤ fuel)%nat →
     parse_members fuel (emit_members members rest) = Some (members, rest)).
Proof.
  induction fuel as [|fuel (IHv & IHi & IHm & IHms)].
  { split_and!.
    - intros v rest Hneed. destruct v as [| | | |[|]|[|[]]]; simpl in Hneed; lia.
    - intros [|] rest Hneed; simpl in Hneed; lia.
    - intros m rest Hneed. lia.
    - intros [|] rest Hneed; simpl in Hneed; lia. }
  split_and!.
  - intros v rest Hneed Hrest.
    destruct v as [|[]|n|s|[|v items]|[|[key v] members]]; try done.
    + destruct (emit_number_head n rest) as (c & s & Heq & Hc).
      change (emit (JNumber n) rest) with (emit_number n rest).
      simpl. rewrite Heq, Hc, <- Heq. by rewrite parse_emit_number.
    + simpl. by rewrite parse_emit_chars.
    + change (need (JArray (v :: items)))
        with (S (need v + need_items items)) in Hneed.
      change (emit (JArray (v :: items)) rest)
        with (String "[" (emit v (emit_items items rest))).
      cbn [parse_value]. change (is_number_char "[") with false.
      cbn [Ascii.eqb Bool.eqb dquote]. simpl (if false then _ else _).
      rewrite strip_bracket_emit.
      rewrite IHv by (lia || apply delimited_items).
      by rewrite IHi by lia.
    + change (need (JObject ((key, v) :: members)))
        with (S (S (need v) + need_members members)) in Hneed.
      change (emit (JObject ((key, v) :: members)) rest)
        with (String "{" (emit_string key (String ":"
                (emit v (emit_members members rest))))).
      cbn [parse_value]. change (is_number_char "{") with false.
      cbn [Ascii.eqb Bool.eqb dquote]. simpl (if false then _ else _).
      change (strip "}" (emit_string key ?k)) with (@None string).
      rewrite (IHm (key, v)) by (simpl; lia || apply delimited_members).
      by rewrite IHms by lia.
  - intros [|v items] rest Hneed; [done|].
    change (need_items (v :: items)) with (S (need v + need_items items)) in Hneed.
    change (emit_items (v :: items) rest)
      with (String "," (emit v (emit_items items rest))).
    cbn [parse_items Ascii.eqb Bool.eqb]. simpl (if false then _ else _).
    rewrite IHv by (lia || apply delimited_items).
    by rewrite IHi by lia.
  - intros [key v] rest Hneed Hrest. simpl in Hneed.
    cbn [parse_member fst snd]. rewrite parse_emit_string.
    cbn [strip Ascii.eqb Bool.eqb]. by rewrite IHv by (lia || done).
  - intros [|[key v] members] rest Hneed; [done|].
    change (need_members ((key, v) :: members))
      with (S (S (need v) + need_members members)) in Hneed.
    change (emit_members ((key, v) :: members) rest)
      with (String "," (emit_string key (String ":"
              (emit v (emit_members members rest))))).
    cbn [parse_members Ascii.eqb Bool.eqb]. simpl (if false then _ else _).
    rewrite (IHm (key, v)) by (simpl; lia || apply delimited_members).
    by rewrite IHms by lia.
Qed.

Lemma length_append (p rest : string) :
  String.length (p +:+ rest) = (String.length p + String.length rest)%nat.
Proof. induction p as [|c p IH]; simpl; [done|]. by rewrite IH. Qed.

(** The text of a value is long enough to serve as fuel. *)
Lemma length_emit_number n rest :
  (1 + String.length rest ≤ String.length (emit_number n rest))%nat.
Proof.
  unfold emit_number. rewrite length_append.
  assert (1 ≤ String.length (NilZero.string_of_int (Z.to_int n)))%nat; [|lia].
  destruct (Z.to_int n) as [[]|[]]; simpl; lia.
Qed.

Lemma length_emit_chars s rest :
  (1 + String.length rest ≤ String.length (emit_chars s rest))%nat.
Proof.
  induction s as [|c s IH]; simpl; [lia|].
  destruct (_ || _); simpl; lia.
Qed.

Lemma need_length (bound : nat) :
  (∀ v rest, (need v ≤ bound)%nat →
     (need v + String.length rest ≤ String.length (emit v rest))%nat)
  ∧ (∀ items rest, (need_items items ≤ bound)%nat →
     (need_items items + String.length rest
        ≤ String.length (emit_items items rest))%nat)
  ∧ (∀ members rest, (need_members members ≤ bound)%nat →
     (need_members members + String.length rest
        ≤ String.length (emit_members members rest))%nat).
Proof.
  induction bound as [|bound (IHv & IHi & IHms)].
  { split_and!.
    - intros v rest Hneed. destruct v as [| | | |[|]|[|[]]]; simpl in Hneed; lia.
    - intros [|] rest Hneed; simpl in Hneed; lia.
    - intros [|] rest Hneed; simpl in Hneed; lia. }
  split_and!.
  - intros v rest Hneed.
    destruct v as [|[]|n|s|[|v items]|[|[key v] members]];
      try (simpl; lia).
    + pose proof (length_emit_number n rest). simpl. lia.
    + pose proof (length_emit_chars s rest). simpl. lia.
    + change (need (JArray (v :: items)))
        with (S (need v + need_items items)) in *.
      change (emit (JArray (v :: items)) rest)
        with (String "[" (emit v (emit_items items rest))).
      pose proof (IHv v (emit_items items rest)).
      pose proof (IHi items rest). simpl. lia.
    + change (need (JObject ((key, v) :: members)))
        with (S (S (need v) + need_members members)) in *.
      change (emit (JObject ((key, v) :: members)) rest)
        with (String "{" (emit_string key (String ":"
                (emit v (emit_members members rest))))).
      pose proof (length_emit_chars key
        (String ":" (emit v (emit_members members rest)))) as Hkey.
      pose proof (IHv v (emit_members members rest)).
      pose proof (IHms members rest). simpl in *. lia.
  - intros [|v items] rest Hneed; [simpl; lia|].
    change (need_items (v :: items)) with (S (need v + need_items items)) in *.
    change (emit_items (v :: items) rest)
      with (String "," (emit v (emit_items items rest))).
    pose proof (IHv v (emit_items items rest)).
    pose proof (IHi items rest). simpl. lia.
  - intros [|[key v] members] rest Hneed; [simpl; lia|].
    change (need_members ((key, v) :: members))
      with (S (S (need v) + need_members members)) in *.
    change (emit_members ((key, v) :: members) rest)
      with (String "," (emit_string key (String ":"
              (emit v (emit_members members rest))))).
    pose proof (length_emit_chars key
      (String ":" (emit v (emit_members members rest)))) as Hkey.
    pose proof (IHv v (emit_members members rest)).
    pose proof (IHms members rest). simpl in *. lia.
Qed.

(** Every value is the one its text denotes. *)
Lemma parse_print v : parse (print v) = Some v.
Proof.
  unfold parse, print.
  pose proof (proj1 (need_length (need v)) v "" (le_n _)) as Hlen.
  simpl in Hlen.
  by rewrite (proj1 (parse_emit_fuel _) v "") by (lia || done).
Qed.

Lemma print_nonempty v : print v ≠ "".
Proof.
  unfold print. destruct v as [|[]|n|s|[|v items]|[|[key v] members]]; try done.
  destruct (emit_number_head n "") as (c & s & Heq & _).
  change (emit (JNumber n) "") with (emit_number n ""). by rewrite Heq.
Qed.

Lemma decode_encode_item item : decode_item (encode_item item) = Some item.
Proof. by destruct item. Qed.

Lemma decode_encode_record r : decode_record (encode_record r) = Some r.
Proof. by destruct r as [? ? [] ? ? ?]. Qed.

Lemma decode_encode_records records :
  decode_records (encode_records records) = Some records.
Proof.
  unfold decode_records, encode_records.
  induction records as [|r records IH]; [done|].
  rewrite fmap_cons. cbn [mapM]. rewrite decode_encode_record. simpl.
  by rewrite IH.
Qed.

#[global] Instance item_JSONLawful : JSONLawful (CacheItem json).
Proof.
  split.
  - intros item s [= <-]. simpl. by rewrite parse_print, decode_encode_item.
  - intros item Hempty. apply (print_nonempty (encode_item item)).
    simpl in Hempty. congruence.
Qed.

#[global] Instance records_JSONLawful : JSONLawful (list DownloadRecord).
Proof.
  split.
  - intros records s [= <-]. simpl.
    by rewrite parse_print, decode_encode_records.
  - intros records Hempty. apply (print_nonempty (encode_records records)).
    simpl in Hempty. congruence.
Qed.

#[global] Instance records_JSONPlain : JSONPlain (list DownloadRecord).
Proof. intros records. by eexists. Qed.

End MiniJSON_facts.
(** ** The monad and the platform *)

Lemma reliable_tick w : reliable w → reliable (tick w).
Proof.
  unfold reliable, tick; simpl. destruct (faults w); simpl; [done|].
  by inversion 1.
Qed.

Lemma platform_reliable {A} (e : error) (body : M A) w :
  reliable w → platform e body w = body (tick w).
Proof.
  unfold reliable, platform. destruct (faults w) as [|[] fs]; try done.
  inversion 1; discriminate.
Qed.

(** A platform call either rejects or runs, and both consume one fault. *)
Lemma platform_cases {A} (e : error) (body : M A) w :
  (platform e body w = (Thrown e, tick w) ∧ ¬ reliable w)
  ∨ platform e body w = body (tick w).
Proof.
  unfold platform, reliable. destruct (faults w) as [|[] fs]; auto.
  left. split; [done|]. by inversion 1.
Qed.

Ltac platform_case :=
  match goal with
  | |- context [platform ?e ?b ?w] =>
      let Hrejected := fresh "Hrejected" in
      destruct (platform_cases e b w) as [[-> Hrejected] | ->]
  end.

Lemma reliable_with_storage s w : reliable w → reliable (with_storage s w).
Proof. done. Qed.
Lemma reliable_with_files f w : reliable w → reliable (with_files f w).
Proof. done. Qed.
Lemma reliable_with_console c w : reliable w → reliable (with_console c w).
Proof. done. Qed.

Create HintDb reliable.
#[local] Hint Resolve reliable_tick reliable_with_storage reliable_with_files
  reliable_with_console : reliable.

(** ** The cache *)

Lemma prefix_app (p s : string) : String.prefix p (p +:+ s) = true.
Proof.
  induction p as [|a p IH]; simpl; [by destruct s|].
  by destruct (Ascii.ascii_dec a a).
Qed.

(** The TTL is twenty-four hours, in milliseconds. *)
Lemma CACHE_EXPIRY_milliseconds : CACHE_EXPIRY = 86400000.
Proof. reflexivity. Qed.

Section cache_properties.
Context {T : Type} `{!JSON (CacheItem T)} `{!JSONLawful (CacheItem T)}.

(** What [set] leaves behind when nothing rejects. *)
Lemma set_reliable key value w text :
  reliable w →
  JSON_stringify (mkCacheItem value (clock w)) = Some text →
  cache.set key value w =
    (Returned (), with_storage (<[CACHE_PREFIX +:+ key := text]> (storage w)) (tick w)).
Proof.
  intros Hw Htext. unfold cache.set, try_catch, bind, Date_now, JSON_.stringify.
  rewrite Htext. unfold ret, AsyncStorage.setItem.
  by rewrite platform_reliable.
Qed.

Lemma remove_reliable key w :
  reliable w →
  cache.remove key w =
    (Returned (), with_storage (delete (CACHE_PREFIX +:+ key) (storage w)) (tick w)).
Proof.
  intros Hw. unfold cache.remove, try_catch, AsyncStorage.removeItem.
  by rewrite platform_reliable.
Qed.

(** [get] on an entry that [set] wrote, when nothing rejects. *)
Lemma get_reliable key w text item :
  reliable w →
  storage w !! (CACHE_PREFIX +:+ key) = Some text →
  JSON_stringify item = Some text →
  cache.get key w =
    if clock w - timestamp item >? CACHE_EXPIRY
    then (Returned None,
          with_storage (delete (CACHE_PREFIX +:+ key) (storage w)) (tick (tick w)))
    else (Returned (Some (data item)), tick w).
Proof.
  intros Hw Hlook Htext.
  assert (text ≠ "") as Hne.
  { intros ->. by apply (JSON_stringify_nonempty item). }
  unfold cache.get, try_catch, bind, AsyncStorage.getItem.
  rewrite platform_reliable by done. simpl. rewrite Hlook. simpl.
  rewrite bool_decide_false by done. simpl.
  unfold JSON_.parse. rewrite (JSON_parse_stringify _ _ Htext).
  unfold ret, Date_now. simpl.
  destruct (clock w - timestamp item >? CACHE_EXPIRY); [|done].
  rewrite remove_reliable by auto with reliable. done.
Qed.

(** [get] on a key with no entry, whatever rejects. *)
Lemma get_missing key w :
  storage w !! (CACHE_PREFIX +:+ key) = None →
  result (cache.get key) w = Returned None
  ∧ storage (after (cache.get key) w) = storage w.
Proof.
  intros Hlook. unfold result, after, cache.get, try_catch, bind, AsyncStorage.getItem.
  destruct (platform_cases StorageError
    (λ w, (Returned (storage w !! (CACHE_PREFIX +:+ key)), w)) w)
    as [[-> _] | ->].
  - done.
  - simpl. by rewrite Hlook.
Qed.
End cache_properties.

Section cache_claims.
Context {T : Type} `{!JSON (CacheItem T)} `{!JSONLawful (CacheItem T)}.

(** C1. [set key value] followed by [get key] at most [CACHE_EXPIRY]
    milliseconds later returns [value]: for every key, every serialisable
    value, and every later state of the device whose entry for the key is
    the one [set] left, when no platform call rejects. *)
Theorem cache_set_get_roundtrip (key : string) (value : T) (w w' : World) :
  serializable value →
  reliable w → reliable w' →
  storage w' !! (CACHE_PREFIX +:+ key)
    = storage (after (cache.set key value) w) !! (CACHE_PREFIX +:+ key) →
  clock w' - clock w ≤ CACHE_EXPIRY →
  result (cache.get key) w' = Returned (Some value).
Proof.
  intros Hser Hw Hw' Hsame Hwithin.
  destruct (Hser (clock w)) as [text Htext].
  unfold after in Hsame. rewrite (set_reliable _ _ _ _ Hw Htext) in Hsame.
  simpl in Hsame. rewrite lookup_insert_eq in Hsame.
  unfold result. rewrite (get_reliable _ _ _ _ Hw' Hsame Htext). simpl.
  destruct (Z.gtb_spec (clock w' - clock w) CACHE_EXPIRY); [lia|done].
Qed.

(** C2. Once more than [CACHE_EXPIRY] milliseconds have passed since the
    [set], [get key] returns absent and deletes the entry; any later [get]
    of the key, at any time and whatever rejects, returns absent as long as
    the key is not set again. *)
Theorem cache_get_expired_purges (key : string) (value : T) (w w' : World) :
  serializable value →
  reliable w → reliable w' →
  storage w' !! (CACHE_PREFIX +:+ key)
    = storage (after (cache.set key value) w) !! (CACHE_PREFIX +:+ key) →
  CACHE_EXPIRY < clock w' - clock w →
  result (cache.get key) w' = Returned None
  ∧ storage (after (cache.get key) w') !! (CACHE_PREFIX +:+ key) = None
  ∧ ∀ w'' : World,
      storage w'' !! (CACHE_PREFIX +:+ key)
        = storage (after (cache.get key) w') !! (CACHE_PREFIX +:+ key) →
      result (cache.get key) w'' = Returned None.
Proof.
  intros Hser Hw Hw' Hsame Hlate.
  destruct (Hser (clock w)) as [text Htext].
  unfold after in Hsame. rewrite (set_reliable _ _ _ _ Hw Htext) in Hsame.
  simpl in Hsame. rewrite lookup_insert_eq in Hsame.
  unfold result, after. rewrite (get_reliable _ _ _ _ Hw' Hsame Htext). simpl.
  destruct (Z.gtb_spec (clock w' - clock w) CACHE_EXPIRY); [|lia]. simpl.
  rewrite lookup_delete_eq. split_and!; [done..|].
  intros w'' Hgone. by apply get_missing.
Qed.

(** C10. The comparison with the TTL is strict.  Exactly [CACHE_EXPIRY]
    milliseconds after the [set], [get key] still returns the value and
    leaves the entry in place; and whatever the time of the [get], it
    returns absent exactly when more than [CACHE_EXPIRY] milliseconds have
    passed. *)
Theorem cache_expiry_is_strict (key : string) (value : T) (w w' : World) :
  serializable value →
  reliable w → reliable w' →
  storage w' !! (CACHE_PREFIX +:+ key)
    = storage (after (cache.set key value) w) !! (CACHE_PREFIX +:+ key) →
  (clock w' - clock w = CACHE_EXPIRY →
     result (cache.get key) w' = Returned (Some value)
     ∧ storage (after (cache.get key) w') = storage w')
  ∧ (result (cache.get key) w' = Returned None
     ↔ CACHE_EXPIRY < clock w' - clock w).
Proof.
  intros Hser Hw Hw' Hsame.
  destruct (Hser (clock w)) as [text Htext].
  unfold after in Hsame. rewrite (set_reliable _ _ _ _ Hw Htext) in Hsame.
  simpl in Hsame. rewrite lookup_insert_eq in Hsame.
  unfold result, after. rewrite (get_reliable _ _ _ _ Hw' Hsame Htext). simpl.
  destruct (Z.gtb_spec (clock w' - clock w) CACHE_EXPIRY); simpl.
  - split; [lia|]. split; [lia|done].
  - split; [done|]. split; [done|lia].
Qed.

(** C8. After [remove key], [get key] returns absent: in every later state
    of the device in which the key has not been set again, at any time and
    whatever rejects during the [get]. *)
Theorem cache_get_after_remove (key : string) (w w' : World) :
  reliable w →
  storage w' !! (CACHE_PREFIX +:+ key)
    = storage (after (cache.remove key) w) !! (CACHE_PREFIX +:+ key) →
  result (cache.get key) w' = Returned None.
Proof.
  intros Hw Hsame. unfold after in Hsame.
  rewrite remove_reliable in Hsame by done. simpl in Hsame.
  rewrite lookup_delete_eq in Hsame. by apply get_missing.
Qed.

(** C7. [clear] leaves every storage entry whose key does not start with
    [CACHE_PREFIX], and the files, as they were, whatever rejects; and when
    nothing rejects it deletes every entry whose key starts with
    [CACHE_PREFIX]. *)
Theorem cache_clear_frame (w : World) :
  (∀ k : string, String.prefix CACHE_PREFIX k = false →
     storage (after cache.clear w) !! k = storage w !! k)
  ∧ files (after cache.clear w) = files w
  ∧ (reliable w →
     ∀ k : string, String.prefix CACHE_PREFIX k = true →
       storage (after cache.clear w) !! k = None).
Proof.
  unfold after, cache.clear, try_catch, bind,
    AsyncStorage.getAllKeys, AsyncStorage.multiRemove.
  split_and!.
  - intros k Hk. platform_case; simpl; [done|]. platform_case; simpl; [done|].
    apply lookup_foldr_delete_not_elem_of. intros Hin.
    apply list_elem_of_In, filter_In in Hin. destruct Hin as [_ Hin]. congruence.
  - platform_case; simpl; [done|]. by platform_case.
  - intros Hw k Hk. rewrite platform_reliable by done. simpl.
    rewrite platform_reliable by auto with reliable. simpl.
    destruct (storage w !! k) as [v|] eqn:Hlook.
    + apply lookup_foldr_delete, list_elem_of_In, filter_In. split; [|done].
      apply list_elem_of_In, list_elem_of_fmap. exists (k, v). split; [done|].
      by apply elem_of_map_to_list.
    + clear Hk. induction (List.filter _ _) as [|k' ks IH]; simpl; [done|].
      destruct (decide (k' = k)) as [->|Hne].
      * apply lookup_delete_eq.
      * by rewrite lookup_delete_ne.
Qed.
End cache_claims.

(** ** Lists of records *)

(** [findIndex] is negative exactly when no record carries the id. *)
Lemma findIndex_negative i records :
  findIndex i records < 0 ↔ i ∉ id <$> records.
Proof.
  induction records as [|r records IH]; simpl.
  - split; [intros _; apply not_elem_of_nil|done].
  - rewrite not_elem_of_cons. case_bool_decide as Hid.
    + split; [lia|]. intros [Hne _]. by destruct Hne.
    + destruct (Z.ltb_spec (findIndex i records) 0) as [Hneg|Hpos].
      * split; [|done]. intros _. split; [done|]. by apply IH.
      * split; [lia|]. intros [_ Hnotin]. apply IH in Hnotin. lia.
Qed.

(** Otherwise it is the position of the first record that carries it, the
    record [find] returns. *)
Lemma findIndex_found i records :
  0 ≤ findIndex i records →
  ∃ r, records !! Z.to_nat (findIndex i records) = Some r
       ∧ id r = i ∧ find_record i records = Some r.
Proof.
  induction records as [|r records IH]; simpl; [lia|].
  case_bool_decide as Hid.
  - intros _. by exists r.
  - destruct (Z.ltb_spec (findIndex i records) 0) as [Hneg|Hpos]; [lia|].
    intros _. destruct (IH Hpos) as (r' & Hlook & Hid' & Hfind).
    exists r'. split_and!; [|done..].
    replace (Z.to_nat (findIndex i records + 1))
      with (S (Z.to_nat (findIndex i records))) by lia.
    done.
Qed.

Lemma find_record_None i records :
  find_record i records = None ↔ i ∉ id <$> records.
Proof.
  unfold find_record. induction records as [|r records IH]; simpl.
  - split; [intros _; apply not_elem_of_nil|done].
  - rewrite not_elem_of_cons. case_bool_decide as Hid.
    + split; [done|]. intros [Hne _]. by destruct Hne.
    + rewrite IH. split; [intros ?; split; [congruence|done]|by intros [_ ?]].
Qed.

(** Among records with distinct ids, the one [find] returns is the only one
    that carries the id. *)
Lemma records_of_distinct i records r :
  distinct_ids records → find_record i records = Some r →
  records_of i records = [r].
Proof.
  unfold distinct_ids, records_of, find_record.
  induction records as [|r' records IH]; simpl; [done|].
  rewrite NoDup_cons. intros [Hnotin Hdistinct].
  case_bool_decide as Hid.
  - intros [= ->]. f_equal. subst i.
    apply find_record_None in Hnotin. clear IH Hdistinct.
    unfold find_record in Hnotin.
    induction records as [|r'' records IH]; simpl in *; [done|].
    destruct (bool_decide (id r'' = id r)); [done|]. by apply IH.
  - by apply IH.
Qed.

(** [upsert] keeps the ids of the list when the id is there, and adds the
    id at the end when it is not. *)
Lemma upsert_ids record records :
  id <$> upsert record records
  = if 0 <=? findIndex (id record) records
    then id <$> records else ((id <$> records) ++ [id record])%list.
Proof.
  unfold upsert. destruct (Z.leb_spec 0 (findIndex (id record) records)) as [Hpos|Hneg].
  - destruct (findIndex_found _ _ Hpos) as (r & Hlook & Hid & _).
    rewrite list_fmap_insert. apply list_insert_id.
    by rewrite list_lookup_fmap, Hlook, <- Hid.
  - by rewrite fmap_app.
Qed.

Lemma upsert_distinct record records :
  distinct_ids records → distinct_ids (upsert record records).
Proof.
  unfold distinct_ids. rewrite upsert_ids.
  destruct (Z.leb_spec 0 (findIndex (id record) records)) as [Hpos|Hneg]; [done|].
  intros Hdistinct. apply NoDup_app. split_and!; [done| |apply NoDup_singleton].
  intros i Hin Hin'. apply list_elem_of_singleton in Hin'. subst i.
  by apply findIndex_negative in Hneg.
Qed.

Lemma upsert_find record records :
  find_record (id record) (upsert record records) = Some record.
Proof.
  unfold upsert, find_record. induction records as [|r records IH]; simpl.
  - by rewrite bool_decide_true.
  - case_bool_decide as Hid; simpl.
    + by rewrite bool_decide_true.
    + destruct (Z.ltb_spec (findIndex (id record) records) 0) as [Hneg|Hpos].
      * simpl. rewrite bool_decide_false by done.
        destruct (Z.leb_spec 0 (findIndex (id record) records)); [lia|done].
      * destruct (Z.leb_spec 0 (findIndex (id record) records + 1)); [|lia].
        replace (Z.to_nat (findIndex (id record) records + 1))
          with (S (Z.to_nat (findIndex (id record) records))) by lia.
        simpl. rewrite bool_decide_false by done.
        destruct (Z.leb_spec 0 (findIndex (id record) records)); [done|lia].
Qed.

(** When the id is there, [upsert] replaces: the list keeps its length. *)
Lemma upsert_length record records :
  id record ∈ id <$> records →
  length (upsert record records) = length records.
Proof.
  intros Hin. unfold upsert.
  destruct (Z.leb_spec 0 (findIndex (id record) records)) as [Hpos|Hneg].
  - apply length_insert.
  - by apply findIndex_negative in Hneg.
Qed.

(** It replaces in place the record [find] returns. *)
Lemma upsert_in_place record records old :
  find_record (id record) records = Some old →
  ∃ k : nat, records !! k = Some old
             ∧ upsert record records = <[k := record]> records.
Proof.
  intros Hold. unfold upsert.
  destruct (Z.leb_spec 0 (findIndex (id record) records)) as [Hpos|Hneg].
  - destruct (findIndex_found _ _ Hpos) as (r & Hlook & _ & Hfind).
    exists (Z.to_nat (findIndex (id record) records)).
    split; [congruence|done].
  - apply findIndex_negative, find_record_None in Hneg. congruence.
Qed.

(** Removing the records of an id keeps the others distinct and leaves none
    with the id. *)
Lemma remove_distinct i records :
  distinct_ids records →
  distinct_ids (List.filter (λ r, negb (bool_decide (id r = i))) records).
Proof.
  unfold distinct_ids. induction records as [|r records IH]; simpl; [done|].
  rewrite NoDup_cons. intros [Hnotin Hdistinct].
  destruct (bool_decide (id r = i)); simpl; [by apply IH|].
  rewrite NoDup_cons. split; [|by apply IH].
  intros Hin. apply Hnotin. apply list_elem_of_fmap in Hin as (r' & -> & Hin).
  apply list_elem_of_fmap. exists r'. split; [done|].
  apply list_elem_of_In in Hin. apply filter_In in Hin as [Hin _].
  by apply list_elem_of_In.
Qed.

Lemma remove_find i records :
  find_record i (List.filter (λ r, negb (bool_decide (id r = i))) records)
  = None.
Proof.
  unfold find_record. induction records as [|r records IH]; simpl; [done|].
  destruct (bool_decide (id r = i)) eqn:Hid; simpl; [done|]. by rewrite Hid.
Qed.

(** ** The download manifest *)

Lemma quiet_refl w : quiet w w.
Proof. by repeat split. Qed.

Lemma quiet_tick w : quiet w (tick w).
Proof. repeat split; auto with reliable. Qed.

Lemma quiet_console c w w' : quiet w w' → quiet w (with_console c w').
Proof. intros (? & ? & ? & ?). by repeat split. Qed.

#[local] Hint Resolve quiet_refl quiet_tick quiet_console : reliable.

Lemma cache_key_ne (key : string) : CACHE_PREFIX +:+ key ≠ DOWNLOADS_KEY.
Proof.
  intros Heq. pose proof (prefix_app CACHE_PREFIX key) as Hp.
  rewrite Heq in Hp. discriminate.
Qed.

Section manifest_properties.
Context `{!JSON (list DownloadRecord)} `{!JSONLawful (list DownloadRecord)}.

Lemma manifest_of_lookup (s s' : gmap string string) :
  s' !! DOWNLOADS_KEY = s !! DOWNLOADS_KEY → manifest_of s' = manifest_of s.
Proof. unfold manifest_of. by intros ->. Qed.

Lemma manifest_of_insert (s : gmap string string) records text :
  JSON_stringify records = Some text →
  manifest_of (<[DOWNLOADS_KEY := text]> s) = records.
Proof.
  intros Htext. unfold manifest_of. rewrite lookup_insert_eq.
  assert (text ≠ "") as Hne.
  { intros ->. by apply (JSON_stringify_nonempty records). }
  simpl. rewrite bool_decide_false by done. simpl.
  by rewrite (JSON_parse_stringify _ _ Htext).
Qed.

Lemma manifest_of_delete (s : gmap string string) :
  manifest_of (delete DOWNLOADS_KEY s) = [].
Proof. unfold manifest_of. by rewrite lookup_delete_eq. Qed.

Lemma manifest_quiet w w' : quiet w w' → manifest w' = manifest w.
Proof. intros (Hs & _). unfold manifest. by rewrite Hs. Qed.

(** [getAllRecords] never throws and changes nothing; it returns the
    manifest, or no record when the storage rejects the read. *)
Lemma getAllRecords_spec w :
  ∃ records w',
    downloads.getAllRecords w = (Returned records, w')
    ∧ quiet w w'
    ∧ (records = manifest w ∨ records = [])
    ∧ (reliable w → records = manifest w).
Proof.
  unfold downloads.getAllRecords, try_catch, bind, AsyncStorage.getItem.
  unfold manifest, manifest_of.
  platform_case.
  { simpl. do 2 eexists. split; [done|]. split_and!; auto with reliable.
    done. }
  change (storage (tick w)) with (storage w).
  destruct (storage w !! DOWNLOADS_KEY) as [text|] eqn:Hlook; simpl.
  - destruct (bool_decide (text = "")); simpl.
    + do 2 eexists. split; [done|]. split_and!; auto with reliable.
    + unfold JSON_.parse. destruct (JSON_parse text) as [records|]; simpl.
      * do 2 eexists. split; [done|]. split_and!; auto with reliable.
      * do 2 eexists. split; [done|]. split_and!; auto with reliable.
  - do 2 eexists. split; [done|]. split_and!; auto with reliable.
Qed.

Lemma rewritten_manifest records w w' :
  rewritten records w w' →
  (manifest w' = manifest w ∨ manifest w' = records)
  ∧ (reliable w → manifest w' = records).
Proof.
  intros (_ & _ & _ & Hany & Hrel). unfold manifest. split.
  - destruct Hany as [-> | (text & Htext & ->)]; [by left|right].
    by apply manifest_of_insert.
  - intros Hw. destruct (Hrel Hw) as (text & Htext & ->).
    by apply manifest_of_insert.
Qed.

Lemma rewritten_quiet records w w1 w' :
  quiet w w1 → rewritten records w1 w' → rewritten records w w'.
Proof.
  intros (Hs & Hf & Hc & Hr) (Hf' & Hc' & Hr' & Hany & Hrel).
  unfold rewritten. rewrite <- Hs. split_and!; try congruence; auto.
Qed.

Context `{!JSONPlain (list DownloadRecord)}.

(** [saveAllRecords] never throws; it replaces the manifest, or changes
    nothing when the storage rejects the write. *)
Lemma saveAllRecords_spec records w :
  ∃ w', downloads.saveAllRecords records w = (Returned (), w')
        ∧ rewritten records w w'.
Proof.
  unfold downloads.saveAllRecords, try_catch, bind, JSON_.stringify.
  destruct (JSON_stringify_total records) as [text Htext]. rewrite Htext.
  unfold ret, AsyncStorage.setItem. platform_case; simpl.
  - eexists. split; [done|]. unfold rewritten; simpl.
    split_and!; auto with reliable. done.
  - eexists. split; [done|]. unfold rewritten, written; simpl.
    split_and!; eauto with reliable.
Qed.

(** [saveRecord] never throws; it replaces the manifest by the [upsert] of
    the record into the manifest, or into no record when the read was
    rejected, or changes nothing when the write is. *)
Lemma saveRecord_spec record w :
  ∃ records w',
    downloads.saveRecord record w = (Returned (), w')
    ∧ (records = manifest w ∨ records = [])
    ∧ (reliable w → records = manifest w)
    ∧ rewritten (upsert record records) w w'.
Proof.
  unfold downloads.saveRecord, try_catch, bind.
  destruct (getAllRecords_spec w) as (records & w1 & -> & Hquiet & Hany & Hrel).
  fold (upsert record records).
  destruct (saveAllRecords_spec (upsert record records) w1) as (w' & -> & Hre).
  exists records, w'. split_and!; [done..|]. by eapply rewritten_quiet.
Qed.

(** [getDownload] never throws and changes nothing; it returns the first
    record of the manifest that carries the id, or none when the storage
    rejects the read. *)
Lemma getDownload_spec i w :
  ∃ record w',
    downloads.getDownload i w = (Returned record, w')
    ∧ quiet w w'
    ∧ (record = find_record i (manifest w) ∨ record = None)
    ∧ (reliable w → record = find_record i (manifest w)).
Proof.
  unfold downloads.getDownload, try_catch, bind.
  destruct (getAllRecords_spec w) as (records & w1 & -> & Hquiet & Hany & Hrel).
  exists (find_record i records), w1. simpl. split_and!; [done..| |].
  - destruct Hany as [-> | ->]; auto.
  - intros Hw. by rewrite (Hrel Hw).
Qed.

(** Both make one platform call, the read of the manifest. *)
Lemma getAllRecords_faults w :
  faults (after downloads.getAllRecords w) = tail (faults w).
Proof.
  unfold after, downloads.getAllRecords, try_catch, bind, AsyncStorage.getItem.
  platform_case; simpl; [done|].
  destruct (storage w !! DOWNLOADS_KEY) as [text|]; simpl; [|done].
  destruct (bool_decide (text = "")); simpl; [done|].
  unfold JSON_.parse. by destruct (JSON_parse text).
Qed.

Lemma getDownload_faults i w :
  faults (after (downloads.getDownload i) w) = tail (faults w).
Proof.
  rewrite <- getAllRecords_faults.
  unfold after, downloads.getDownload, try_catch, bind.
  by destruct (getAllRecords_spec w) as (records & w1 & -> & _).
Qed.

(** When the storage accepts the read, they return what the manifest
    holds. *)
Lemma getAllRecords_accepted w :
  head (faults w) ≠ Some true →
  result downloads.getAllRecords w = Returned (manifest w).
Proof.
  intros Haccepted.
  unfold result, downloads.getAllRecords, try_catch, bind, AsyncStorage.getItem.
  unfold platform, manifest, manifest_of.
  destruct (faults w) as [|[] fs]; try done; simpl;
    (destruct (storage w !! DOWNLOADS_KEY) as [text|]; simpl; [|done]);
    (destruct (bool_decide (text = "")); simpl; [done|]);
    unfold JSON_.parse; by destruct (JSON_parse text).
Qed.

Lemma getDownload_accepted i w :
  head (faults w) ≠ Some true →
  result (downloads.getDownload i) w = Returned (find_record i (manifest w)).
Proof.
  intros Haccepted. pose proof (getAllRecords_accepted w Haccepted) as Hall.
  unfold result, downloads.getDownload, try_catch, bind in *.
  destruct (getAllRecords_spec w) as (records & w1 & Heq & _).
  rewrite Heq in *. simpl in *. congruence.
Qed.

(** [isDownloaded] throws when the storage accepts the read of the manifest,
    the manifest has a record for the id, and the file system rejects the
    query for its file. *)
Lemma isDownloaded_throws i w r fs :
  faults w = false :: true :: fs →
  find_record i (manifest w) = Some r →
  result (downloads.isDownloaded i) w = Thrown FileSystemError.
Proof.
  intros Hfaults Hfound.
  pose proof (getDownload_accepted i w) as Hrecord.
  pose proof (getDownload_faults i w) as Hnext.
  rewrite Hfaults in Hrecord, Hnext. simpl in Hnext.
  unfold result, after, downloads.isDownloaded, bind in *.
  destruct (downloads.getDownload i w) as [[record|e] w1]; simpl in *;
    [|by specialize (Hrecord ltac:(done))].
  specialize (Hrecord ltac:(done)). injection Hrecord as ->. rewrite Hfound.
  unfold FileSystem.getInfoAsync, platform. by rewrite Hnext.
Qed.

Variable documentDirectory : string.
Abbreviation DOWNLOADS_DIR := (downloads.DOWNLOADS_DIR documentDirectory).

(** [init] never throws; it leaves the storage alone and, when nothing
    rejects, the downloads directory in place. *)
Lemma init_spec w :
  ∃ w', downloads.init documentDirectory w = (Returned (), w')
        ∧ storage w' = storage w ∧ clock w' = clock w
        ∧ (reliable w → reliable w' ∧ DOWNLOADS_DIR ∈ files w').
Proof.
  unfold downloads.init, try_catch, bind, FileSystem.getInfoAsync.
  platform_case; simpl.
  { eexists. split; [done|]. split_and!; done. }
  case_bool_decide as Hdir; simpl.
  { eexists. split; [done|]. split_and!; auto with reliable. }
  unfold FileSystem.makeDirectoryAsync. platform_case; simpl.
  - eexists. split; [done|]. split_and!; [done..|].
    intros Hw. by apply reliable_tick in Hw.
  - eexists. split; [done|]. split_and!; [done..|].
    intros Hw. split; [auto with reliable|]. simpl.
    by apply elem_of_union_l, elem_of_singleton.
Qed.

(** [download] never throws and keeps the ids of the manifest distinct; when
    nothing rejects it returns the path derived from the id and the type,
    where the file then exists, and upserts the record of the download. *)
Lemma download_spec i n u t w :
  let uri := DOWNLOADS_DIR +:+ (i +:+ extension_of t) in
  ∃ path w',
    downloads.download documentDirectory i n u t w = (Returned path, w')
    ∧ (distinct_ids (manifest w) → distinct_ids (manifest w'))
    ∧ (reliable w →
         path = Some uri ∧ reliable w' ∧ uri ∈ files w'
         ∧ manifest w'
           = upsert (mkDownloadRecord i n t u uri (clock w)) (manifest w)).
Proof.
  intros uri. unfold downloads.download, try_catch, bind.
  destruct (init_spec w) as (w1 & -> & Hs1 & Hc1 & Hrel1).
  fold (extension_of t). fold uri.
  unfold FileSystem.downloadAsync. platform_case; simpl.
  { do 2 eexists. split; [done|]. unfold manifest; simpl. rewrite Hs1.
    split; [done|]. intros Hw. destruct (Hrel1 Hw) as [Hw1 _]. done. }
  match goal with
  | |- context [downloads.saveRecord ?r ?w] =>
      set (w2 := w);
      destruct (saveRecord_spec r w2)
        as (records & w' & -> & Hany & Hrel & Hre)
  end.
  simpl. do 2 eexists. split; [done|].
  apply rewritten_manifest in Hre as Hmanifest.
  destruct Hmanifest as [Hmanifest Hmanifest'].
  assert (manifest w2 = manifest w) as Hsame.
  { unfold manifest. simpl. by rewrite Hs1. }
  rewrite Hsame in *. split.
  - intros Hdistinct. destruct Hmanifest as [-> | ->]; [done|].
    apply upsert_distinct. by destruct Hany as [-> | ->]; [|apply NoDup_nil_2].
  - intros Hw. destruct (Hrel1 Hw) as [Hw1 Hdir].
    assert (reliable w2) as Hw2 by (subst w2; auto with reliable).
    destruct Hre as (Hf & Hc & Hr & _).
    split_and!; [done|by apply Hr| |].
    + rewrite Hf. simpl. by apply elem_of_union_l, elem_of_singleton.
    + rewrite (Hmanifest' Hw2), (Hrel Hw2). simpl. by rewrite Hc1.
Qed.

(** [isDownloaded] returns true only when the manifest has a record for the
    id and the file of that record exists; when nothing rejects it returns
    true exactly then. *)
Lemma isDownloaded_spec i w :
  (result (downloads.isDownloaded i) w = Returned true →
     ∃ r, find_record i (manifest w) = Some r ∧ localUri r ∈ files w)
  ∧ (reliable w →
       result (downloads.isDownloaded i) w
       = Returned (match find_record i (manifest w) with
                   | Some r => bool_decide (localUri r ∈ files w)
                   | None => false
                   end)).
Proof.
  unfold result, downloads.isDownloaded, bind.
  destruct (getDownload_spec i w) as (record & w1 & -> & Hquiet & Hany & Hrel).
  destruct Hquiet as (Hs & Hf & Hc & Hr). split.
  - destruct Hany as [-> | ->]; [|done].
    destruct (find_record i (manifest w)) as [r|]; [|done].
    unfold FileSystem.getInfoAsync. platform_case; simpl; [done|].
    rewrite Hf. intros [= Hexists%bool_decide_eq_true]. eauto.
  - intros Hw. rewrite (Hrel Hw).
    destruct (find_record i (manifest w)) as [r|]; [|done].
    unfold FileSystem.getInfoAsync. rewrite platform_reliable by auto.
    simpl. by rewrite Hf.
Qed.

(** [deleteDownload] never throws and keeps the ids of the manifest
    distinct; without a record for the id it changes nothing; when nothing
    rejects it leaves no record for the id. *)
Lemma deleteDownload_spec i w :
  ∃ w', downloads.deleteDownload i w = (Returned (), w')
        ∧ (distinct_ids (manifest w) → distinct_ids (manifest w'))
        ∧ (find_record i (manifest w) = None → quiet w w')
        ∧ (reliable w → reliable w' ∧ find_record i (manifest w') = None).
Proof.
  unfold downloads.deleteDownload, try_catch, bind.
  destruct (getDownload_spec i w) as (record & w1 & -> & Hquiet & Hany & Hrel).
  pose proof (manifest_quiet _ _ Hquiet) as Hm1.
  assert (record = None → ∃ w',
    (Returned (), w1) = (Returned (), w')
    ∧ (distinct_ids (manifest w) → distinct_ids (manifest w'))
    ∧ (find_record i (manifest w) = None → quiet w w')
    ∧ (reliable w → reliable w' ∧ find_record i (manifest w') = None))
    as Hnone.
  { intros ->. exists w1. rewrite Hm1. split_and!; [done..|].
    intros Hw. split; [by apply Hquiet|]. by rewrite <- (Hrel Hw). }
  destruct record as [r|]; [|by apply Hnone].
  assert (find_record i (manifest w) = Some r) as Hfound.
  { by destruct Hany as [-> | ?]. }
  unfold FileSystem.deleteAsync. platform_case; simpl.
  { eexists. split; [done|]. unfold manifest in *; simpl. rewrite Hm1.
    split_and!; [done|congruence|].
    intros Hw. by apply Hquiet in Hw. }
  match goal with
  | |- context [downloads.getAllRecords ?w] =>
      destruct (getAllRecords_spec w)
        as (records & w2 & -> & Hquiet2 & Hany2 & Hrel2);
      pose proof (manifest_quiet _ _ Hquiet2) as Hm2
  end.
  match goal with
  | |- context [downloads.saveAllRecords ?rs ?w] =>
      destruct (saveAllRecords_spec rs w) as (w' & -> & Hre)
  end.
  apply rewritten_manifest in Hre as Hmanifest.
  destruct Hmanifest as [Hmanifest Hmanifest'].
  assert (manifest w2 = manifest w) as Hsame.
  { rewrite Hm2. unfold manifest in *. simpl. by rewrite Hm1. }
  exists w'. split; [done|]. split_and!.
  - intros Hdistinct. destruct Hmanifest as [-> | ->]; [by rewrite Hsame|].
    apply remove_distinct. destruct Hany2 as [-> | ->]; [|apply NoDup_nil_2].
    unfold manifest in *. simpl. by rewrite Hm1.
  - congruence.
  - intros Hw. apply Hquiet in Hw as Hw1.
    assert (reliable w2) as Hw2 by (apply Hquiet2; auto with reliable).
    destruct Hre as (_ & _ & Hr & _). split; [by apply Hr|].
    rewrite (Hmanifest' Hw2). apply remove_find.
Qed.

(** [clearAll] never throws and keeps the ids of the manifest distinct. *)
Lemma clearAll_spec w :
  ∃ w', downloads.clearAll documentDirectory w = (Returned (), w')
        ∧ (distinct_ids (manifest w) → distinct_ids (manifest w')).
Proof.
  unfold downloads.clearAll, try_catch, bind, FileSystem.deleteAsync.
  platform_case; simpl.
  { eexists. split; [done|]. done. }
  unfold AsyncStorage.removeItem. platform_case; simpl.
  { eexists. split; [done|]. done. }
  match goal with
  | |- context [downloads.init _ ?w] =>
      destruct (init_spec w) as (w' & -> & Hs & _)
  end.
  exists w'. split; [done|]. intros _. unfold manifest. rewrite Hs. simpl.
  rewrite manifest_of_delete. apply NoDup_nil_2.
Qed.
End manifest_properties.

(** ** The cache, whatever rejects *)

Section cache_any_faults.
Context {T : Type} `{!JSON (CacheItem T)}.

Lemma remove_spec key w :
  ∃ w', cache.remove key w = (Returned (), w')
        ∧ files w' = files w
        ∧ storage w' !! DOWNLOADS_KEY = storage w !! DOWNLOADS_KEY.
Proof.
  unfold cache.remove, try_catch, AsyncStorage.removeItem.
  platform_case; simpl; eexists; (split; [done|]); split; try done.
  simpl. rewrite lookup_delete_ne; [done|apply cache_key_ne].
Qed.

Lemma set_spec key (value : T) w :
  ∃ w', cache.set key value w = (Returned (), w')
        ∧ files w' = files w
        ∧ storage w' !! DOWNLOADS_KEY = storage w !! DOWNLOADS_KEY.
Proof.
  unfold cache.set, try_catch, bind, Date_now, JSON_.stringify.
  destruct (JSON_stringify _) as [text|]; simpl.
  - unfold AsyncStorage.setItem. platform_case; simpl;
      eexists; (split; [done|]); split; try done.
    simpl. rewrite lookup_insert_ne; [done|apply cache_key_ne].
  - by eexists.
Qed.

Lemma get_spec key w :
  ∃ (value : option T) w',
    cache.get key w = (Returned value, w')
    ∧ files w' = files w
    ∧ storage w' !! DOWNLOADS_KEY = storage w !! DOWNLOADS_KEY.
Proof.
  unfold cache.get, try_catch, bind, AsyncStorage.getItem.
  platform_case; simpl; [by do 2 eexists|].
  destruct (storage w !! (CACHE_PREFIX +:+ key)) as [text|]; simpl;
    [|by do 2 eexists].
  destruct (bool_decide (text = "")); simpl; [by do 2 eexists|].
  unfold JSON_.parse. destruct (JSON_parse text) as [item|]; simpl;
    [|by do 2 eexists].
  destruct (_ >? _); simpl; [|by do 2 eexists].
  destruct (remove_spec key (tick w)) as (w' & -> & Hf & Hs).
  by do 2 eexists.
Qed.

Lemma clear_spec w :
  ∃ w', cache.clear w = (Returned (), w')
        ∧ files w' = files w
        ∧ storage w' !! DOWNLOADS_KEY = storage w !! DOWNLOADS_KEY.
Proof.
  unfold cache.clear, try_catch, bind, AsyncStorage.getAllKeys.
  platform_case; simpl; [by eexists|].
  unfold AsyncStorage.multiRemove. platform_case; simpl; [by eexists|].
  eexists. split; [done|]. split; [done|]. simpl.
  apply lookup_foldr_delete_not_elem_of. intros Hin.
  apply list_elem_of_In, filter_In in Hin. by destruct Hin as [_ Hin].
Qed.
End cache_any_faults.

(** ** The claims on the download manifest *)

Section downloads_claims.
Context {T : Type} `{!JSON (CacheItem T)}.
Context `{!JSON (list DownloadRecord)} `{!JSONLawful (list DownloadRecord)}
  `{!JSONPlain (list DownloadRecord)}.
Variable documentDirectory : string.
Abbreviation DOWNLOADS_DIR := (downloads.DOWNLOADS_DIR documentDirectory).

Lemma isDownloaded_storage i w :
  storage (after (downloads.isDownloaded i) w) = storage w.
Proof.
  unfold after, downloads.isDownloaded, bind.
  destruct (getDownload_spec i w) as (record & w1 & -> & (Hs & _) & _).
  destruct record as [r|]; [|done].
  unfold FileSystem.getInfoAsync. by platform_case.
Qed.

(** Every call keeps the ids of the manifest distinct, a direct
    [saveAllRecords] when the list it is given does. *)
Lemma perform_distinct (c : call T) w :
  keeps_ids_distinct c →
  distinct_ids (manifest w) →
  distinct_ids (manifest (perform documentDirectory c w)).
Proof.
  intros Hok Hdistinct. unfold manifest.
  destruct c as [key value|key|key| | |i n u t|i|i|i| |record|records| ];
    unfold perform, after.
  - destruct (set_spec key value w) as (w' & -> & _ & Hs).
    by rewrite (manifest_of_lookup _ _ Hs).
  - destruct (get_spec (T:=T) key w) as (value & w' & -> & _ & Hs).
    by rewrite (manifest_of_lookup _ _ Hs).
  - destruct (remove_spec key w) as (w' & -> & _ & Hs).
    by rewrite (manifest_of_lookup _ _ Hs).
  - destruct (clear_spec w) as (w' & -> & _ & Hs).
    by rewrite (manifest_of_lookup _ _ Hs).
  - destruct (init_spec documentDirectory w) as (w' & -> & Hs & _).
    simpl. by rewrite Hs.
  - destruct (download_spec documentDirectory i n u t w)
      as (path & w' & -> & Hkeep & _). by apply Hkeep.
  - destruct (getDownload_spec i w) as (record & w' & -> & (Hs & _) & _).
    simpl. by rewrite Hs.
  - fold (after (downloads.isDownloaded i) w). by rewrite isDownloaded_storage.
  - destruct (deleteDownload_spec i w) as (w' & -> & Hkeep & _). by apply Hkeep.
  - destruct (getAllRecords_spec w) as (records & w' & -> & (Hs & _) & _).
    simpl. by rewrite Hs.
  - destruct (saveRecord_spec record w)
      as (records & w' & -> & Hany & _ & Hre).
    apply rewritten_manifest in Hre as [[Hm | Hm] _]; simpl;
      fold (manifest w'); rewrite Hm; [done|].
    apply upsert_distinct. by destruct Hany as [-> | ->]; [|apply NoDup_nil_2].
  - destruct (saveAllRecords_spec records w) as (w' & -> & Hre).
    apply rewritten_manifest in Hre as [[Hm | Hm] _]; simpl;
      fold (manifest w'); by rewrite Hm.
  - destruct (clearAll_spec documentDirectory w) as (w' & -> & Hkeep).
    by apply Hkeep.
Qed.

(** C3, amended.  From a manifest with at most one record per id, the
    manifest holds at most one record per id after any sequence of calls on
    the two helpers, whatever rejects and whatever happens around the storage
    in between, provided no direct [saveAllRecords] is given a list that
    repeats an id.  In particular, when nothing rejects, two calls of
    [download] with the same id leave exactly one record for the id, the
    record of the second call, which has taken the place of the record of
    the first call in the manifest. *)
Theorem manifest_one_record_per_id :
  (∀ w w' : World,
     rtc (happens (T:=T) documentDirectory keeps_ids_distinct) w w' →
     distinct_ids (manifest w) → distinct_ids (manifest w'))
  ∧ (∀ (i n1 u1 : string) (t1 : MediaType) (n2 u2 : string) (t2 : MediaType)
       (w : World),
       reliable w → distinct_ids (manifest w) →
       let w1 := after (downloads.download documentDirectory i n1 u1 t1) w in
       let w2 := after (downloads.download documentDirectory i n2 u2 t2) w1 in
       let r1 :=
         mkDownloadRecord i n1 t1 u1
           (DOWNLOADS_DIR +:+ (i +:+ extension_of t1)) (clock w) in
       let r2 :=
         mkDownloadRecord i n2 t2 u2
           (DOWNLOADS_DIR +:+ (i +:+ extension_of t2)) (clock w1) in
       records_of i (manifest w2) = [r2]
       ∧ ∃ k : nat, manifest w1 !! k = Some r1
                    ∧ manifest w2 = <[k := r2]> (manifest w1)).
Proof.
  split.
  - intros w w' Hsteps. induction Hsteps as [w|w w1 w' Hstep _ IH]; [done|].
    intros Hdistinct. apply IH. destruct Hstep as [c w Hok|w w1 Hs].
    + by apply perform_distinct.
    + unfold manifest. by rewrite Hs.
  - intros i n1 u1 t1 n2 u2 t2 w Hw Hdistinct w1 w2 r1 r2.
    subst w1 w2 r1 r2. unfold after.
    destruct (download_spec documentDirectory i n1 u1 t1 w)
      as (path1 & w1 & -> & Hkeep1 & Hrel1).
    destruct (Hrel1 Hw) as (_ & Hw1 & _ & Hm1). simpl.
    destruct (download_spec documentDirectory i n2 u2 t2 w1)
      as (path2 & w2 & -> & Hkeep2 & Hrel2).
    destruct (Hrel2 Hw1) as (_ & Hw2 & _ & Hm2). simpl.
    rewrite Hm2. split.
    + apply records_of_distinct; [by apply upsert_distinct, Hkeep1|].
      apply (upsert_find (mkDownloadRecord i n2 t2 u2 _ _)).
    + apply upsert_in_place. simpl. rewrite Hm1.
      apply (upsert_find (mkDownloadRecord i n1 t1 u1 _ _)).
Qed.

(** C6. [isDownloaded] returns true only if the manifest has a record for
    the id and the file at the local path of that record exists, whatever
    rejects; and when nothing rejects it returns false for a record whose
    file is no longer on disk, and true for one whose file is. *)
Theorem isDownloaded_detects_drift (i : string) (w : World) :
  (result (downloads.isDownloaded i) w = Returned true →
     ∃ r, find_record i (manifest w) = Some r ∧ localUri r ∈ files w)
  ∧ (∀ r, reliable w → find_record i (manifest w) = Some r →
       result (downloads.isDownloaded i) w
       = Returned (bool_decide (localUri r ∈ files w))).
Proof.
  destruct (isDownloaded_spec i w) as [Honly Hrel]. split; [done|].
  intros r Hw Hfound. by rewrite (Hrel Hw), Hfound.
Qed.

(** C9. Without a record for the id in the manifest, [deleteDownload]
    returns and leaves the storage, and so the manifest, and the files as
    they were, whatever rejects; the one platform call it makes is the read
    of the manifest, none reaches the file system. *)
Theorem deleteDownload_without_record (i : string) (w : World) :
  find_record i (manifest w) = None →
  result (downloads.deleteDownload i) w = Returned ()
  ∧ storage (after (downloads.deleteDownload i) w) = storage w
  ∧ files (after (downloads.deleteDownload i) w) = files w
  ∧ faults (after (downloads.deleteDownload i) w) = tail (faults w).
Proof.
  intros Hnone. rewrite <- (getDownload_faults i w).
  unfold result, after, downloads.deleteDownload, try_catch, bind.
  destruct (getDownload_spec i w)
    as (record & w1 & -> & (Hs & Hf & _) & Hany & _).
  assert (record = None) as -> by (destruct Hany; congruence).
  done.
Qed.

(** X8. Every call whose body is wrapped in [try]/[catch] returns,
    whatever rejects. *)
Lemma guarded_calls_never_throw (c : call T) (w : World) :
  guarded c = true → completion documentDirectory c w = Returned ().
Proof.
  intros Hguarded.
  destruct c as [key value|key|key| | |i n u t|i|i|i| |record|records| ];
    try discriminate; unfold completion, result.
  - by destruct (set_spec key value w) as (w' & -> & _).
  - by destruct (get_spec (T:=T) key w) as (value & w' & -> & _).
  - by destruct (remove_spec key w) as (w' & -> & _).
  - by destruct (clear_spec w) as (w' & -> & _).
  - by destruct (init_spec documentDirectory w) as (w' & -> & _).
  - by destruct (download_spec documentDirectory i n u t w)
      as (path & w' & -> & _).
  - by destruct (getDownload_spec i w) as (record & w' & -> & _).
  - by destruct (deleteDownload_spec i w) as (w' & -> & _).
  - by destruct (getAllRecords_spec w) as (records & w' & -> & _).
  - by destruct (saveRecord_spec record w) as (records & w' & -> & _).
  - by destruct (saveAllRecords_spec records w) as (w' & -> & _).
  - by destruct (clearAll_spec documentDirectory w) as (w' & -> & _).
Qed.
End downloads_claims.

(** ** The claims on concrete devices

    The statements above, run with the codec [MiniJSON] on a fresh
    installation: the cached query of the topics of a chapter, and the
    download of a lesson. *)

Import MiniJSON.

Lemma topics_payload_serializable : serializable topics_payload.
Proof. intros t. by eexists. Qed.

Lemma fresh_install_reliable : reliable fresh_install.
Proof. constructor. Qed.

Lemma topics_cached_reliable : reliable topics_cached.
Proof. vm_compute. constructor. Qed.

Lemma lesson_downloaded_reliable : reliable lesson_downloaded.
Proof. vm_compute. constructor. Qed.

(** One hour after the topics were cached, [get] returns them. *)
Lemma cache_set_get_roundtrip_witness :
  result (cache.get topics_key) (elapse 3600000 topics_cached)
  = Returned (Some topics_payload).
Proof.
  apply (cache_set_get_roundtrip topics_key topics_payload fresh_install).
  - exact topics_payload_serializable.
  - exact fresh_install_reliable.
  - exact topics_cached_reliable.
  - reflexivity.
  - vm_compute. discriminate.
Defined.

(** Twenty-five hours after, [get] returns absent and the entry is gone. *)
Lemma cache_get_expired_purges_witness :
  let w' := elapse 90000000 topics_cached in
  result (cache.get (T:=json) topics_key) w' = Returned None
  ∧ storage (after (cache.get (T:=json) topics_key) w')
      !! (CACHE_PREFIX +:+ topics_key) = None.
Proof.
  intros w'.
  destruct (cache_get_expired_purges topics_key topics_payload
              fresh_install w') as (Habsent & Hpurged & _).
  - exact topics_payload_serializable.
  - exact fresh_install_reliable.
  - exact topics_cached_reliable.
  - reflexivity.
  - vm_compute. reflexivity.
  - by split.
Defined.

(** Exactly twenty-four hours after, [get] still returns them and keeps the
    entry. *)
Lemma cache_expiry_is_strict_witness :
  let w' := elapse 86400000 topics_cached in
  result (cache.get topics_key) w' = Returned (Some topics_payload)
  ∧ storage (after (cache.get (T:=json) topics_key) w') = storage w'.
Proof.
  intros w'.
  destruct (cache_expiry_is_strict topics_key topics_payload
              fresh_install w') as (Hkept & _).
  - exact topics_payload_serializable.
  - exact fresh_install_reliable.
  - exact topics_cached_reliable.
  - reflexivity.
  - apply Hkept. vm_compute. reflexivity.
Defined.

(** Once removed, the cached topics are absent. *)
Lemma cache_get_after_remove_witness :
  result (cache.get (T:=json) topics_key)
    (after (cache.remove topics_key) topics_cached)
  = Returned None.
Proof.
  apply (cache_get_after_remove (T:=json) topics_key topics_cached).
  - exact topics_cached_reliable.
  - reflexivity.
Defined.

(** On the device that holds both the downloaded lesson and the cached
    topics, [clear] deletes the topics and keeps the manifest. *)
Lemma cache_clear_frame_witness :
  let w := after (cache.set topics_key topics_payload) lesson_downloaded in
  storage (after cache.clear w) !! (CACHE_PREFIX +:+ topics_key) = None
  ∧ storage (after cache.clear w) !! DOWNLOADS_KEY
    = storage w !! DOWNLOADS_KEY.
Proof.
  intros w. destruct (cache_clear_frame w) as (Hothers & _ & Hcache).
  split.
  - apply Hcache; [vm_compute; constructor|reflexivity].
  - apply Hothers. reflexivity.
Defined.

(** C3 as first stated, for any sequence of calls, fails: a direct
    [saveAllRecords] of a list that names the lesson twice leaves two records
    for its id in the manifest of a fresh installation. *)
Lemma direct_saveAllRecords_repeats_id :
  distinct_ids (manifest fresh_install)
  ∧ ¬ distinct_ids
        (manifest (perform (T:=json) documents
                     (downloads_saveAllRecords [lesson; lesson])
                     fresh_install)).
Proof.
  split; [apply NoDup_nil_2|].
  vm_compute. intros Hdistinct. apply NoDup_cons in Hdistinct as [Hnotin _].
  apply Hnotin. apply list_elem_of_here.
Qed.

(** The lesson downloaded a second time, from another address: its record
    takes the place of the first, and is the only one for the lesson. *)
Lemma manifest_one_record_per_id_witness :
  let w1 := lesson_downloaded in
  let w2 := after (downloads.download documents "t1" "Fractions (HD)"
                     "https://cdn.example/hd/t1.mp4" video) w1 in
  let r2 := mkDownloadRecord "t1" "Fractions (HD)" video
              "https://cdn.example/hd/t1.mp4" (localUri lesson) (clock w1) in
  records_of "t1" (manifest w2) = [r2]
  ∧ ∃ k : nat, manifest w1 !! k = Some lesson
               ∧ manifest w2 = <[k := r2]> (manifest w1).
Proof.
  apply (proj2 (manifest_one_record_per_id (T:=json) documents)
           "t1" "Fractions" "https://cdn.example/t1.mp4" video
           "Fractions (HD)" "https://cdn.example/hd/t1.mp4" video
           fresh_install).
  - exact fresh_install_reliable.
  - apply NoDup_nil_2.
Defined.

(** C4 as first stated, for every download that returns the path, fails:
    when the storage rejects the write of the manifest, [download] still
    returns the path of the file, [saveRecord] having logged the error, and
    [isDownloaded] then returns false. *)
Lemma download_returns_path_without_record :
  let download_lesson :=
    downloads.download documents "t1" "Fractions"
      "https://cdn.example/t1.mp4" video in
  result download_lesson fresh_install_full_storage
    = Returned (Some (localUri lesson))
  ∧ console (after download_lesson fresh_install_full_storage)
    = ["Error saving download records:"]
  ∧ result (downloads.isDownloaded "t1")
      (after download_lesson fresh_install_full_storage)
    = Returned false.
Proof. vm_compute. done. Qed.

(** With the record of the lesson in the manifest and its file removed from
    outside, [isDownloaded] returns false. *)
Lemma isDownloaded_detects_drift_witness :
  find_record "t1" (manifest lesson_file_removed) = Some lesson
  ∧ (localUri lesson ∉ files lesson_file_removed)
  ∧ result (downloads.isDownloaded "t1") lesson_file_removed = Returned false.
Proof.
  assert (find_record "t1" (manifest lesson_file_removed) = Some lesson)
    as Hrecord by (vm_compute; reflexivity).
  assert (localUri lesson ∉ files lesson_file_removed) as Hremoved.
  { unfold lesson_file_removed. simpl. apply not_elem_of_difference. right.
    by apply elem_of_singleton. }
  split_and!; [done..|].
  rewrite (proj2 (isDownloaded_detects_drift "t1" lesson_file_removed) lesson).
  - by rewrite bool_decide_false.
  - vm_compute. constructor.
  - exact Hrecord.
Defined.

(** Deleting a lesson that was never downloaded changes nothing. *)
Lemma deleteDownload_without_record_witness :
  result (downloads.deleteDownload "t2") lesson_downloaded = Returned ()
  ∧ storage (after (downloads.deleteDownload "t2") lesson_downloaded)
    = storage lesson_downloaded
  ∧ files (after (downloads.deleteDownload "t2") lesson_downloaded)
    = files lesson_downloaded.
Proof.
  destruct (deleteDownload_without_record "t2" lesson_downloaded)
    as (Hreturns & Hstorage & Hfiles & _); [|done].
  vm_compute. reflexivity.
Defined.

(** C5, where the code departs from it.  On the device that holds the
    downloaded lesson, when the file system rejects the query for the file of
    the lesson, [isDownloaded] throws what the file system threw:
    [getInfoAsync] is awaited outside any [try]/[catch]. *)
Theorem isDownloaded_propagates_rejection :
  result (downloads.isDownloaded "t1") lesson_downloaded_failing_disk
  = Thrown FileSystemError.
Proof.
  apply (isDownloaded_throws "t1" lesson_downloaded_failing_disk lesson []).
  - reflexivity.
  - vm_compute. reflexivity.
Qed.

(** * Further properties *)

(** ** What computations keep *)

Section keeps_rules.
Context (R : World → World → Prop) `{!Frame R}.

Lemma keeps_ret {A} (a : A) : keeps R (ret a).
Proof. intros w. apply frame_refl. Qed.

Lemma keeps_throw {A} (e : error) : keeps R (throw (A:=A) e).
Proof. intros w. apply frame_refl. Qed.

Lemma keeps_bind {A B} (m : M A) (k : A → M B) :
  keeps R m → (∀ a, keeps R (k a)) → keeps R (bind m k).
Proof.
  intros Hm Hk w. specialize (Hm w). unfold after, bind in *.
  destruct (m w) as [[a|e] w1]; simpl in *; [|done].
  eapply frame_trans; [done|]. apply Hk.
Qed.

Lemma keeps_try_catch {A} (m : M A) (handler : error → M A) :
  keeps R m → (∀ e, keeps R (handler e)) → keeps R (try_catch m handler).
Proof.
  intros Hm Hh w. specialize (Hm w). unfold after, try_catch in *.
  destruct (m w) as [[a|e] w1]; simpl in *; [done|].
  eapply frame_trans; [done|]. apply Hh.
Qed.

(** A platform call keeps what its effect keeps. *)
Lemma keeps_platform {A} (e : error) (value : World → A)
  (effect : World → World) :
  (∀ w, R w (effect w)) →
  keeps R (platform e (λ w, (Returned (value w), effect w))).
Proof.
  intros Heffect w. unfold after.
  destruct (platform_cases e (λ w, (Returned (value w), effect w)) w)
    as [[-> _] | ->]; simpl; [apply frame_tick|].
  eapply frame_trans; [apply frame_tick|apply Heffect].
Qed.

Lemma keeps_console_error message : keeps R (console_error message).
Proof. intros w. apply frame_console. Qed.

Lemma keeps_Date_now : keeps R Date_now.
Proof. intros w. apply frame_refl. Qed.

Lemma keeps_stringify {A} `{!JSON A} (a : A) : keeps R (JSON_.stringify a).
Proof.
  intros w. unfold after, JSON_.stringify.
  destruct (JSON_stringify a); apply frame_refl.
Qed.

Lemma keeps_parse {A} `{!JSON A} (s : string) : keeps R (JSON_.parse (A:=A) s).
Proof.
  intros w. unfold after, JSON_.parse.
  destruct (JSON_parse s); apply frame_refl.
Qed.
End keeps_rules.

(** Breaks a helper down to the effects of its platform calls. *)
Ltac keeps_rule lem :=
  apply lem;
  lazymatch goal with
  | |- Frame _ => apply _
  | |- keeps _ _ => idtac
  | _ => try intros ?
  end.

Ltac keeps_steps :=
  repeat first
    [ keeps_rule @keeps_try_catch
    | keeps_rule @keeps_bind
    | keeps_rule @keeps_ret
    | keeps_rule @keeps_throw
    | keeps_rule @keeps_console_error
    | keeps_rule @keeps_Date_now
    | keeps_rule @keeps_stringify
    | keeps_rule @keeps_parse
    | progress (unfold AsyncStorage.getItem, AsyncStorage.setItem,
        AsyncStorage.removeItem, AsyncStorage.getAllKeys,
        AsyncStorage.multiRemove, FileSystem.getInfoAsync,
        FileSystem.makeDirectoryAsync, FileSystem.downloadAsync,
        FileSystem.deleteAsync)
    | keeps_rule @keeps_platform
    | match goal with
      | |- keeps _ (match ?x with _ => _ end) => destruct x
      | |- keeps _ (if ?x then _ else _) => destruct x
      end ].

#[global] Instance same_outside_Frame K : Frame (same_outside K).
Proof.
  split.
  - by intros w k.
  - intros w1 w2 w3 H12 H23 k Hk. by rewrite H23, H12.
  - by intros w k.
  - by intros c w k.
Qed.

#[global] Instance same_files_Frame : Frame same_files.
Proof. split; unfold same_files; try done. intros; simpl; congruence. Qed.

#[global] Instance no_file_lost_Frame : Frame no_file_lost.
Proof.
  split; unfold no_file_lost; try done. intros w1 w2 w3 ? ?.
  by etransitivity.
Qed.

Lemma same_outside_files K f w : same_outside K w (with_files f w).
Proof. by intros k. Qed.

Lemma same_outside_insert (K : string → Prop) key value w :
  K key → same_outside K w (with_storage (<[key := value]> (storage w)) w).
Proof. intros Hkey k Hk. simpl. apply lookup_insert_ne. by intros ->. Qed.

Lemma same_outside_delete (K : string → Prop) key w :
  K key → same_outside K w (with_storage (delete key (storage w)) w).
Proof. intros Hkey k Hk. simpl. apply lookup_delete_ne. by intros ->. Qed.

Lemma same_outside_deletes (K : string → Prop) keys w :
  Forall K keys →
  same_outside K w (with_storage (foldr delete (storage w) keys) w).
Proof.
  intros Hkeys k Hk. simpl. apply lookup_foldr_delete_not_elem_of.
  intros Hin. apply Hk. by eapply Forall_forall in Hkeys.
Qed.

Ltac keeps_same_outside :=
  keeps_steps;
  try first
    [ apply frame_refl
    | apply same_outside_files
    | by apply same_outside_insert
    | by apply same_outside_delete ].

Section cache_frame.
Context {T : Type} `{!JSON (CacheItem T)}.

Lemma cache_set_same_outside key (value : T) :
  keeps (same_outside (eq (CACHE_PREFIX +:+ key))) (cache.set key value).
Proof. keeps_same_outside. Qed.

Lemma cache_remove_same_outside key :
  keeps (same_outside (eq (CACHE_PREFIX +:+ key))) (cache.remove key).
Proof. keeps_same_outside. Qed.

Lemma cache_get_same_outside key :
  keeps (same_outside (eq (CACHE_PREFIX +:+ key))) (cache.get (T:=T) key).
Proof. keeps_same_outside. Qed.
End cache_frame.

Section downloads_frame.
Context `{!JSON (list DownloadRecord)}.
Variable documentDirectory : string.

Lemma init_same_outside K : keeps (same_outside K) (downloads.init documentDirectory).
Proof. keeps_same_outside. Qed.

Lemma getAllRecords_same_outside K : keeps (same_outside K) downloads.getAllRecords.
Proof. keeps_same_outside. Qed.

Lemma saveAllRecords_same_outside records :
  keeps (same_outside (eq DOWNLOADS_KEY)) (downloads.saveAllRecords records).
Proof. keeps_same_outside. Qed.

Lemma saveRecord_same_outside record :
  keeps (same_outside (eq DOWNLOADS_KEY)) (downloads.saveRecord record).
Proof. keeps_same_outside. Qed.

Lemma getDownload_same_outside K i : keeps (same_outside K) (downloads.getDownload i).
Proof. keeps_same_outside. Qed.

Lemma isDownloaded_same_outside K i :
  keeps (same_outside K) (downloads.isDownloaded i).
Proof. keeps_same_outside. Qed.

Lemma download_same_outside i n u t :
  keeps (same_outside (eq DOWNLOADS_KEY))
    (downloads.download documentDirectory i n u t).
Proof. keeps_same_outside. Qed.

Lemma deleteDownload_same_outside i :
  keeps (same_outside (eq DOWNLOADS_KEY)) (downloads.deleteDownload i).
Proof. keeps_same_outside. Qed.

Lemma clearAll_same_outside :
  keeps (same_outside (eq DOWNLOADS_KEY)) (downloads.clearAll documentDirectory).
Proof. keeps_same_outside. Qed.
End downloads_frame.

(** ** The cache and the manifest leave each other alone *)

Section frames.
Context {T : Type} `{!JSON (CacheItem T)} `{!JSON (list DownloadRecord)}.
Variable documentDirectory : string.

(** X1. [set], [get] and [remove] on one key leave the entry of every other
    key as it was, whatever rejects: also [get] when it purges an expired
    entry. *)
Theorem cache_entries_independent (key key' : string) (value : T) (w : World) :
  key' ≠ key →
  storage (after (cache.set key value) w) !! (CACHE_PREFIX +:+ key')
    = storage w !! (CACHE_PREFIX +:+ key')
  ∧ storage (after (cache.get (T:=T) key) w) !! (CACHE_PREFIX +:+ key')
    = storage w !! (CACHE_PREFIX +:+ key')
  ∧ storage (after (cache.remove key) w) !! (CACHE_PREFIX +:+ key')
    = storage w !! (CACHE_PREFIX +:+ key').
Proof.
  intros Hne.
  assert (CACHE_PREFIX +:+ key ≠ CACHE_PREFIX +:+ key') as Hkeys.
  { intros Heq. by apply (inj (String.app CACHE_PREFIX)) in Heq. }
  split_and!.
  - by apply (cache_set_same_outside key value w).
  - by apply (cache_get_same_outside key w).
  - by apply (cache_remove_same_outside key w).
Qed.

(** X2. No call on the cache, [clear] included, changes the manifest or a
    file, whatever rejects. *)
Theorem cache_leaves_downloads_alone (c : call T) (w : World) :
  is_cache_call c = true →
  manifest (perform documentDirectory c w) = manifest w
  ∧ files (perform documentDirectory c w) = files w.
Proof.
  intros Hcache. unfold manifest, manifest_of.
  destruct c as [key value|key|key| | | | | | | | | | ]; try discriminate;
    unfold perform, after.
  - destruct (set_spec key value w) as (w' & -> & Hf & Hs).
    simpl. by rewrite Hs.
  - destruct (get_spec (T:=T) key w) as (value & w' & -> & Hf & Hs).
    simpl. by rewrite Hs.
  - destruct (remove_spec key w) as (w' & -> & Hf & Hs).
    simpl. by rewrite Hs.
  - destruct (clear_spec w) as (w' & -> & Hf & Hs).
    simpl. by rewrite Hs.
Qed.

(** X3. No call on the download manifest, [clearAll] included, changes a
    storage entry other than the manifest, whatever rejects: the cache
    survives it. *)
Theorem downloads_leave_cache_alone (c : call T) (w : World) (k : string) :
  is_cache_call c = false →
  k ≠ DOWNLOADS_KEY →
  storage (perform documentDirectory c w) !! k = storage w !! k.
Proof.
  intros Hdownloads Hk.
  assert (¬ DOWNLOADS_KEY = k) as Hk' by congruence.
  destruct c as [| | | | |i n u t|i|i|i| |record|records| ];
    try discriminate; unfold perform.
  - by apply (init_same_outside documentDirectory (eq DOWNLOADS_KEY) w).
  - by apply (download_same_outside documentDirectory i n u t w).
  - by apply (getDownload_same_outside (eq DOWNLOADS_KEY) i w).
  - by apply (isDownloaded_same_outside (eq DOWNLOADS_KEY) i w).
  - by apply (deleteDownload_same_outside i w).
  - by apply (getAllRecords_same_outside (eq DOWNLOADS_KEY) w).
  - by apply (saveRecord_same_outside record w).
  - by apply (saveAllRecords_same_outside records w).
  - by apply (clearAll_same_outside documentDirectory w).
Qed.
End frames.

(** ** The codec on garbled texts *)

Lemma parse_garbled text : garbled text = true → MiniJSON.parse text = None.
Proof.
  destruct text as [|c rest]; [done|]. simpl. intros Hgarbled.
  unfold MiniJSON.parse. cbn [String.length MiniJSON.parse_value].
  destruct c as [[] [] [] [] [] [] [] []];
    first [ discriminate Hgarbled | reflexivity ].
Qed.

#[global] Instance item_JSONStrict : JSONStrict (CacheItem MiniJSON.json).
Proof. intros text Hgarbled. cbn. by rewrite parse_garbled. Qed.

(** ** Edges of the cache *)

Section cache_edges.
Context {T : Type} `{!JSON (CacheItem T)}.

(** X4. An entry whose text is empty or garbled, so that [JSON.parse]
    throws on it, is reported absent, by a [get] that returns rather than
    throws, and is left in the storage: [get] purges expired entries
    only. *)
Theorem cache_get_unreadable `{!JSONStrict (CacheItem T)}
  (key text : string) (w : World) :
  storage w !! (CACHE_PREFIX +:+ key) = Some text →
  garbled text = true →
  result (cache.get (T:=T) key) w = Returned None
  ∧ storage (after (cache.get (T:=T) key) w) = storage w.
Proof.
  intros Hentry Hgarbled.
  unfold result, after, cache.get, try_catch, bind, AsyncStorage.getItem.
  platform_case; simpl; [done|]. rewrite Hentry. simpl.
  destruct (bool_decide (text = "")); simpl; [done|].
  unfold JSON_.parse. by rewrite (JSON_parse_garbled text Hgarbled).
Qed.

(** X5. A [set] that fails, because the value cannot be serialised or
    because the storage rejects the write, returns all the same and leaves
    the storage as it was: the entry the key had before is still there. *)
Theorem cache_set_failure_keeps_entry (key : string) (value : T) (w : World) :
  JSON_stringify (mkCacheItem value (clock w)) = None
  ∨ head (faults w) = Some true →
  result (cache.set key value) w = Returned ()
  ∧ storage (after (cache.set key value) w) = storage w.
Proof.
  intros Hfails.
  unfold result, after, cache.set, try_catch, bind, Date_now, JSON_.stringify.
  destruct (JSON_stringify _) as [text|] eqn:Htext; simpl; [|done].
  destruct Hfails as [? | Hrejects]; [done|].
  unfold AsyncStorage.setItem, platform.
  by destruct (faults w) as [|[] fs].
Qed.

(** X6. After a [clear] during which nothing rejects, [get] returns absent
    for every key, at any time and whatever rejects during the [get], as
    long as the key is not set again. *)
Theorem cache_get_after_clear (key : string) (w w' : World) :
  reliable w →
  storage w' !! (CACHE_PREFIX +:+ key)
    = storage (after cache.clear w) !! (CACHE_PREFIX +:+ key) →
  result (cache.get (T:=T) key) w' = Returned None.
Proof.
  intros Hw Hsame.
  assert (storage w' !! (CACHE_PREFIX +:+ key) = None) as Hgone.
  { rewrite Hsame. unfold after, cache.clear, try_catch, bind,
      AsyncStorage.getAllKeys, AsyncStorage.multiRemove.
    rewrite platform_reliable by done. simpl.
    rewrite platform_reliable by auto with reliable. simpl.
    destruct (storage w !! (CACHE_PREFIX +:+ key)) as [v|] eqn:Hlook.
    - apply lookup_foldr_delete, list_elem_of_In, filter_In.
      split; [|apply prefix_app].
      apply list_elem_of_In, list_elem_of_fmap.
      exists (CACHE_PREFIX +:+ key, v). split; [done|].
      by apply elem_of_map_to_list.
    - induction (List.filter _ _) as [|k' ks IH]; simpl; [done|].
      destruct (decide (k' = CACHE_PREFIX +:+ key)) as [->|Hne].
      + apply lookup_delete_eq.
      + by rewrite lookup_delete_ne. }
  unfold result, cache.get, try_catch, bind, AsyncStorage.getItem.
  platform_case; simpl; [done|]. by rewrite Hgone.
Qed.
(** X25. When the storage rejects the removal of an expired entry, [get]
    returns absent all the same and the entry stays in the storage. *)
Theorem cache_get_expired_purge_rejected
  (key text : string) (item : CacheItem T) (w : World) (fs : list bool) :
  storage w !! (CACHE_PREFIX +:+ key) = Some text →
  text ≠ "" →
  JSON_parse text = Some item →
  clock w - timestamp item > CACHE_EXPIRY →
  faults w = false :: true :: fs →
  result (cache.get (T:=T) key) w = Returned None
  ∧ storage (after (cache.get (T:=T) key) w) = storage w
  ∧ faults (after (cache.get (T:=T) key) w) = fs.
Proof.
  intros Hentry Hfull Hparse Hexpired Hfaults.
  unfold result, after, cache.get, cache.remove, try_catch, bind,
    AsyncStorage.getItem, AsyncStorage.removeItem, JSON_.parse, Date_now,
    platform.
  rewrite Hfaults. simpl. rewrite Hentry. simpl.
  rewrite bool_decide_false by done. simpl. rewrite Hparse. simpl.
  destruct (Z.gtb_spec (clock w - timestamp item) CACHE_EXPIRY) as [_|?];
    [|lia].
  change (faults (tick w)) with (tail (faults w)).
  rewrite Hfaults. simpl. by rewrite Hfaults.
Qed.
End cache_edges.

(** X7. The keys [cacheKeys] builds never collide: two cached queries share
    a storage entry only if they are of the same kind and for the same
    id. *)
Theorem cacheKeys_never_collide (q q' : query) (a b : string) :
  (q, a) ≠ (q', b) →
  CACHE_PREFIX +:+ key_of q a ≠ CACHE_PREFIX +:+ key_of q' b.
Proof.
  intros Hne Heq. apply Hne. apply (inj (String.app CACHE_PREFIX)) in Heq.
  destruct q, q'; unfold key_of, cacheKeys.subjects, cacheKeys.enrollments,
    cacheKeys.terms, cacheKeys.chapters, cacheKeys.topics,
    cacheKeys.progress in Heq;
    first [ by apply (inj (String.app _)) in Heq as ->
          | by cbv [String.app] in Heq ].
Qed.

(** ** More on lists of records, paths and strings *)

Lemma upsert_find_other record records i :
  i ≠ id record →
  find_record i (upsert record records) = find_record i records.
Proof.
  intros Hne. unfold upsert, find_record.
  induction records as [|r records IH]; simpl.
  - by rewrite bool_decide_false.
  - destruct (bool_decide (id r = id record)) eqn:Hr; simpl.
    + apply bool_decide_eq_true in Hr.
      rewrite !bool_decide_false by congruence. done.
    + destruct (Z.ltb_spec (findIndex (id record) records) 0) as [Hneg|Hpos].
      * simpl. destruct (bool_decide (id r = i)); [done|].
        destruct (Z.leb_spec 0 (findIndex (id record) records)); [lia|done].
      * destruct (Z.leb_spec 0 (findIndex (id record) records + 1)); [|lia].
        replace (Z.to_nat (findIndex (id record) records + 1))
          with (S (Z.to_nat (findIndex (id record) records))) by lia.
        simpl. destruct (bool_decide (id r = i)); [done|].
        destruct (Z.leb_spec 0 (findIndex (id record) records)); [done|lia].
Qed.

Lemma upsert_new record records :
  find_record (id record) records = None →
  upsert record records = (records ++ [record])%list.
Proof.
  intros Hnew. unfold upsert.
  destruct (Z.leb_spec 0 (findIndex (id record) records)) as [Hpos|Hneg];
    [|done].
  destruct (findIndex_found _ _ Hpos) as (r & _ & _ & Hfind). congruence.
Qed.

Lemma remove_find_other i j records :
  j ≠ i →
  find_record j (List.filter (λ r, negb (bool_decide (id r = i))) records)
  = find_record j records.
Proof.
  intros Hne. unfold find_record.
  induction records as [|r records IH]; simpl; [done|].
  destruct (bool_decide (id r = i)) eqn:Hi; simpl.
  - apply bool_decide_eq_true in Hi.
    by rewrite bool_decide_false by congruence.
  - by destruct (bool_decide (id r = j)).
Qed.

Lemma under_self p : under p p = true.
Proof. unfold under. by rewrite bool_decide_true. Qed.

Lemma prefix_length (p q : string) :
  String.prefix p q = true → (String.length p ≤ String.length q)%nat.
Proof.
  revert q. induction p as [|a p IH]; intros [|b q]; simpl; try done; [lia|].
  destruct (Ascii.ascii_dec a b); [|done]. intros Hp%IH. lia.
Qed.

Lemma prefix_same_length (p q : string) :
  String.prefix p q = true → String.length p = String.length q → p = q.
Proof.
  revert q. induction p as [|a p IH]; intros [|b q]; simpl; try done.
  destruct (Ascii.ascii_dec a b) as [->|]; [|done].
  intros Hp [= Hlen]. f_equal. by apply IH.
Qed.

Lemma length_app (p q : string) :
  String.length (p +:+ q) = (String.length p + String.length q)%nat.
Proof. induction p as [|a p IH]; simpl; [done|]. by rewrite IH. Qed.

(** A path is not under another path of the same length. *)
Lemma under_same_length p q :
  String.length p = String.length q → q ≠ p → under p q = false.
Proof.
  intros Hlen Hne. unfold under. rewrite bool_decide_false by done. simpl.
  destruct (String.prefix "/" (String.rev p)).
  - apply not_true_is_false. intros Hp.
    apply Hne. symmetry. by apply prefix_same_length.
  - apply not_true_is_false. intros Hp%prefix_length.
    rewrite length_app in Hp. simpl in Hp. lia.
Qed.

Lemma app_inj_r (a b s : string) : a +:+ s = b +:+ s → a = b.
Proof.
  revert b. induction a as [|c a IH]; intros [|d b] Heq; simpl in *.
  - done.
  - apply (f_equal String.length) in Heq.
    rewrite !length_app in Heq. simpl in Heq. lia.
  - apply (f_equal String.length) in Heq.
    rewrite !length_app in Heq. simpl in Heq. lia.
  - cbn in Heq. injection Heq as -> Heq. f_equal. by apply IH.
Qed.

(** The last character of a text that ends with [c]. *)
Lemma app_last_inj (a b : string) (c d : ascii) :
  a +:+ String c "" = b +:+ String d "" → a = b ∧ c = d.
Proof.
  revert b. induction a as [|x a IH]; intros [|y b] Heq; simpl in *.
  - by injection Heq as ->.
  - injection Heq as -> Heq. by destruct b.
  - injection Heq as -> Heq. by destruct a.
  - injection Heq as -> Heq. destruct (IH _ Heq) as [-> ->]. done.
Qed.

(** The path [download] derives tells the id and the type. *)
Lemma local_path_inj (dir i i' : string) (t t' : MediaType) :
  dir +:+ (i +:+ extension_of t) = dir +:+ (i' +:+ extension_of t') →
  i = i' ∧ t = t'.
Proof.
  intros Heq. apply (inj (String.app dir)) in Heq.
  assert (∀ s, s +:+ ".mp4" = (s +:+ ".mp") +:+ String "4" "") as Hmp4.
  { intros s. induction s as [|c s IH]; [done|].
    change (String c (s +:+ ".mp4")
            = String c ((s +:+ ".mp") +:+ String "4" "")). by f_equal. }
  assert (∀ s, s +:+ ".pdf" = (s +:+ ".pd") +:+ String "f" "") as Hpdf.
  { intros s. induction s as [|c s IH]; [done|].
    change (String c (s +:+ ".pdf")
            = String c ((s +:+ ".pd") +:+ String "f" "")). by f_equal. }
  destruct t, t'; simpl in Heq.
  - split; [by apply app_inj_r in Heq|done].
  - rewrite Hmp4, Hpdf in Heq. by apply app_last_inj in Heq as [_ ?].
  - rewrite Hmp4, Hpdf in Heq. by apply app_last_inj in Heq as [_ ?].
  - split; [by apply app_inj_r in Heq|done].
Qed.

(** ** Platform calls, one fault at a time *)

Lemma platform_accepted {A} (e : error) (body : M A) w :
  head (faults w) ≠ Some true → platform e body w = body (tick w).
Proof. unfold platform. by destruct (faults w) as [|[] fs]. Qed.

Lemma platform_rejected {A} (e : error) (body : M A) w :
  head (faults w) = Some true → platform e body w = (Thrown e, tick w).
Proof. unfold platform. by destruct (faults w) as [|[] fs]. Qed.

(** ** More on the download manifest *)

Section manifest_more.
Context `{!JSON (list DownloadRecord)} `{!JSONLawful (list DownloadRecord)}
  `{!JSONPlain (list DownloadRecord)}.

(** X9. What [saveAllRecords] writes, [getAllRecords] reads back: whatever
    the manifest held before, when nothing rejects. *)
Theorem saveAllRecords_getAllRecords (records : list DownloadRecord) (w : World) :
  reliable w →
  result downloads.getAllRecords (after (downloads.saveAllRecords records) w)
  = Returned records.
Proof.
  intros Hw. unfold after.
  destruct (saveAllRecords_spec records w) as (w1 & -> & Hre). simpl.
  apply rewritten_manifest in Hre as Hm. destruct Hm as [_ Hm].
  destruct Hre as (_ & _ & Hw1 & _).
  unfold result.
  destruct (getAllRecords_spec w1) as (records' & w2 & -> & _ & _ & Hread).
  simpl. by rewrite (Hread (Hw1 Hw)), (Hm Hw).
Qed.

(** X10. After [saveRecord], [getDownload] of the id of the record returns
    the record, and [getDownload] of any other id returns what the manifest
    held for it before; a record whose id is new goes to the end of the
    manifest.  When nothing rejects. *)
Theorem saveRecord_getDownload (record : DownloadRecord) (w : World) :
  reliable w →
  let w' := after (downloads.saveRecord record) w in
  result (downloads.getDownload (id record)) w' = Returned (Some record)
  ∧ (∀ i, i ≠ id record →
       result (downloads.getDownload i) w'
       = Returned (find_record i (manifest w)))
  ∧ (find_record (id record) (manifest w) = None →
       manifest w' = (manifest w ++ [record])%list).
Proof.
  intros Hw w'. subst w'. unfold after.
  destruct (saveRecord_spec record w) as (records & w1 & -> & _ & Hread & Hre).
  simpl. apply rewritten_manifest in Hre as Hm. destruct Hm as [_ Hm].
  destruct Hre as (_ & _ & Hw1 & _).
  rewrite (Hread Hw) in Hm. specialize (Hm Hw). specialize (Hw1 Hw).
  assert (∀ i, result (downloads.getDownload i) w1
               = Returned (find_record i (upsert record (manifest w))))
    as Hget.
  { intros i. unfold result.
    destruct (getDownload_spec i w1) as (r & w2 & -> & _ & _ & Hfound).
    simpl. by rewrite (Hfound Hw1), Hm. }
  split_and!.
  - by rewrite Hget, upsert_find.
  - intros i Hne. by rewrite Hget, upsert_find_other.
  - intros Hnew. by rewrite Hm, upsert_new.
Qed.

(** X11. When the storage rejects the read of the manifest and accepts the
    write, [saveRecord] takes the manifest to be empty and replaces it by
    the one record: the records it held are lost. *)
Theorem saveRecord_rejected_read_drops_records
  (record : DownloadRecord) (w : World) (fs : list bool) :
  faults w = true :: false :: fs →
  result (downloads.saveRecord record) w = Returned ()
  ∧ manifest (after (downloads.saveRecord record) w) = [record].
Proof.
  intros Hfaults.
  unfold result, after, downloads.saveRecord, downloads.getAllRecords,
    downloads.saveAllRecords, try_catch, bind, AsyncStorage.getItem,
    AsyncStorage.setItem, JSON_.stringify, platform.
  rewrite Hfaults. simpl.
  destruct (JSON_stringify_total [record]) as [text Htext].
  rewrite Htext. simpl. rewrite Hfaults. simpl. split; [done|].
  unfold manifest. simpl. by apply manifest_of_insert.
Qed.
End manifest_more.

Section downloads_more.
Context `{!JSON (list DownloadRecord)} `{!JSONLawful (list DownloadRecord)}
  `{!JSONPlain (list DownloadRecord)}.
Variable documentDirectory : string.
Abbreviation DOWNLOADS_DIR := (downloads.DOWNLOADS_DIR documentDirectory).

Lemma init_no_file_lost : keeps no_file_lost (downloads.init documentDirectory).
Proof.
  keeps_steps; unfold no_file_lost; simpl;
    first [done | apply union_subseteq_r].
Qed.

Lemma download_no_file_lost i n u t :
  keeps no_file_lost (downloads.download documentDirectory i n u t).
Proof.
  keeps_steps; unfold no_file_lost; simpl;
    first [done | apply union_subseteq_r].
Qed.

(** X12. [init] never changes the storage nor removes a file, whatever
    rejects.  When nothing rejects, the downloads directory is there
    afterwards, nothing else has been added, and a second [init] changes no
    file. *)
Theorem init_ensures_directory (w : World) :
  storage (after (downloads.init documentDirectory) w) = storage w
  ∧ files w ⊆ files (after (downloads.init documentDirectory) w)
  ∧ (reliable w →
     files (after (downloads.init documentDirectory) w)
       = {[DOWNLOADS_DIR]} ∪ files w
     ∧ files (after (downloads.init documentDirectory)
                (after (downloads.init documentDirectory) w))
       = files (after (downloads.init documentDirectory) w)).
Proof.
  split_and!.
  - by destruct (init_spec documentDirectory w) as (w' & Heq & Hs & _);
      unfold after; rewrite Heq.
  - apply init_no_file_lost.
  - assert (∀ w, reliable w →
      reliable (after (downloads.init documentDirectory) w)
      ∧ files (after (downloads.init documentDirectory) w)
        = {[DOWNLOADS_DIR]} ∪ files w) as Hinit.
    { clear w. intros w Hw.
      unfold after, downloads.init, try_catch, bind, FileSystem.getInfoAsync,
        FileSystem.makeDirectoryAsync.
      rewrite platform_reliable by done. simpl.
      case_bool_decide as Hdir; simpl.
      - split; [auto with reliable|]. symmetry.
        by apply subseteq_union_1_L, singleton_subseteq_l.
      - rewrite platform_reliable by auto with reliable. simpl.
        split; [auto with reliable|done]. }
    intros Hw. destruct (Hinit w Hw) as [Hw' Hfiles]. split; [done|].
    destruct (Hinit _ Hw') as [_ ->]. rewrite Hfiles.
    by rewrite (assoc_L (∪)), (idemp_L (∪)).
Qed.

(** X13. [download] tells the truth about the file: when it returns a
    path, the path is the one derived from the id and the type and the file
    exists at it; when it returns absent, the storage, and so the manifest,
    is as it was.  It never removes a file.  Whatever rejects. *)
Theorem download_result_is_truthful
  (i n u : string) (t : MediaType) (w : World) :
  let w' := after (downloads.download documentDirectory i n u t) w in
  (∀ path,
     result (downloads.download documentDirectory i n u t) w
       = Returned (Some path) →
     path = DOWNLOADS_DIR +:+ (i +:+ extension_of t) ∧ path ∈ files w')
  ∧ (result (downloads.download documentDirectory i n u t) w = Returned None →
     storage w' = storage w)
  ∧ files w ⊆ files w'.
Proof.
  intros w'. subst w'. split_and!; [| |apply download_no_file_lost].
  - intros path. unfold result, after, downloads.download, try_catch, bind.
    destruct (init_spec documentDirectory w) as (w1 & -> & _).
    fold (extension_of t). unfold FileSystem.downloadAsync.
    platform_case; simpl; [done|].
    match goal with
    | |- context [downloads.saveRecord ?r ?w] =>
        destruct (saveRecord_spec r w) as (records & w2 & -> & _ & _ & Hre)
    end.
    simpl. intros [= <-]. split; [done|].
    destruct Hre as (-> & _). simpl.
    by apply elem_of_union_l, elem_of_singleton.
  - unfold result, after, downloads.download, try_catch, bind.
    destruct (init_spec documentDirectory w) as (w1 & -> & Hs & _).
    unfold FileSystem.downloadAsync. platform_case; simpl; [done|].
    match goal with
    | |- context [downloads.saveRecord ?r ?w] =>
        destruct (saveRecord_spec r w) as (records & w2 & -> & _)
    end.
    done.
Qed.
(** What [deleteDownload] does once it has read, in the manifest, a record
    for the id: nothing when the file system rejects the deletion;
    otherwise the file of the record is gone, and the manifest is rewritten
    without the records of the id, unless the storage rejects the second
    read, which empties the manifest, or the write, which leaves it. *)
Lemma deleteDownload_found i r w :
  head (faults w) ≠ Some true →
  find_record i (manifest w) = Some r →
  let remaining :=
    List.filter (λ r, negb (bool_decide (id r = i))) (manifest w) in
  ∃ w', downloads.deleteDownload i w = (Returned (), w')
    ∧ ((head (tail (faults w)) = Some true
        ∧ storage w' = storage w ∧ files w' = files w)
       ∨ (head (tail (faults w)) ≠ Some true
          ∧ files w'
            = filter (λ q, under (localUri r) q = false) (files w)
          ∧ (manifest w' = manifest w ∨ manifest w' = remaining
             ∨ manifest w' = [])
          ∧ (reliable w → reliable w' ∧ manifest w' = remaining))).
Proof.
  intros Haccepted Hfound remaining.
  pose proof (getDownload_accepted i w Haccepted) as Hrecord.
  pose proof (getDownload_faults i w) as Hnext.
  unfold downloads.deleteDownload, try_catch, bind.
  unfold result, after in Hrecord, Hnext.
  destruct (getDownload_spec i w) as (record & w1 & Heq & Hquiet & _).
  rewrite Heq in *. simpl in Hrecord, Hnext. injection Hrecord as ->.
  rewrite Hfound. destruct Hquiet as (Hs1 & Hf1 & _ & Hw1).
  unfold FileSystem.deleteAsync.
  destruct (decide (head (tail (faults w)) = Some true)) as [Hrejects|Haccepts].
  { rewrite platform_rejected by by rewrite Hnext.
    eexists. split; [done|]. left. simpl. by rewrite Hs1, Hf1. }
  rewrite platform_accepted by by rewrite Hnext.
  match goal with
  | |- context [downloads.getAllRecords ?w] =>
      set (w2 := w);
      destruct (getAllRecords_spec w2)
        as (records & w3 & -> & Hquiet3 & Hany3 & Hrel3)
  end.
  match goal with
  | |- context [downloads.saveAllRecords ?rs ?w] =>
      destruct (saveAllRecords_spec rs w) as (w' & -> & Hre)
  end.
  assert (manifest w2 = manifest w) as Hm2.
  { unfold manifest. simpl. by rewrite Hs1. }
  pose proof (manifest_quiet _ _ Hquiet3) as Hm3.
  apply rewritten_manifest in Hre as Hm. destruct Hm as [Hm Hm'].
  destruct Hre as (Hf & _ & Hw' & _).
  destruct Hquiet3 as (_ & Hf3 & _ & Hw3).
  exists w'. split; [done|]. right. split_and!; [done| | |].
  - rewrite Hf, Hf3. simpl. by rewrite Hf1.
  - destruct Hm as [-> | ->]; [left; congruence|right].
    destruct Hany3 as [-> | ->]; [left; by rewrite Hm2|by right].
  - intros Hw. assert (reliable w2) as Hw2 by (subst w2; auto with reliable).
    split; [auto|]. rewrite (Hm' (Hw3 Hw2)), (Hrel3 Hw2). by rewrite Hm2.
Qed.
Lemma reliable_head w : reliable w → head (faults w) ≠ Some true.
Proof.
  unfold reliable. destruct (faults w) as [|[] fs]; try done.
  by inversion 1.
Qed.

Lemma reliable_head_tail w : reliable w → head (tail (faults w)) ≠ Some true.
Proof. intros Hw. apply (reliable_head (tick w)). by apply reliable_tick. Qed.

(** X14. When nothing rejects, [deleteDownload] of an id that has a record
    removes every record of the id from the manifest and keeps the others
    in their order, and removes the file the record names, and no file
    elsewhere. *)
Theorem deleteDownload_removes_record_and_file
  (i : string) (r : DownloadRecord) (w : World) :
  reliable w →
  find_record i (manifest w) = Some r →
  let w' := after (downloads.deleteDownload i) w in
  manifest w'
    = List.filter (λ r, negb (bool_decide (id r = i))) (manifest w)
  ∧ (∀ j, j ≠ i → find_record j (manifest w') = find_record j (manifest w))
  ∧ (localUri r ∉ files w')
  ∧ (∀ q, under (localUri r) q = false → q ∈ files w' ↔ q ∈ files w).
Proof.
  intros Hw Hfound w'. subst w'. unfold after.
  destruct (deleteDownload_found i r w (reliable_head w Hw) Hfound)
    as (w' & -> & [[Hrejects _] | (_ & Hfiles & _ & Hrel)]).
  { by apply reliable_head_tail in Hrejects. }
  destruct (Hrel Hw) as [_ Hm]. simpl. rewrite Hm, Hfiles. split_and!.
  - done.
  - intros j Hne. by apply remove_find_other.
  - rewrite elem_of_filter, under_self. by intros [? _].
  - intros q Hq. rewrite elem_of_filter. tauto.
Qed.

(** X15. When the file system rejects the deletion of the file,
    [deleteDownload] returns all the same and changes neither the storage
    nor the files: the record stays in the manifest with its file. *)
Theorem deleteDownload_rejected_keeps_record
  (i : string) (r : DownloadRecord) (w : World) (fs : list bool) :
  faults w = false :: true :: fs →
  find_record i (manifest w) = Some r →
  result (downloads.deleteDownload i) w = Returned ()
  ∧ storage (after (downloads.deleteDownload i) w) = storage w
  ∧ files (after (downloads.deleteDownload i) w) = files w.
Proof.
  intros Hfaults Hfound. unfold result, after.
  destruct (deleteDownload_found i r w) as (w' & -> & Hcases);
    [by rewrite Hfaults|done|].
  destruct Hcases as [(_ & Hs & Hf) | (Haccepts & _)]; [done|].
  by rewrite Hfaults in Haccepts.
Qed.

(** X16. Once [deleteDownload] has had the file of the record deleted,
    [isDownloaded] of the id does not return true, whatever rejects after
    the deletion, be it the rewriting of the manifest. *)
Theorem deleteDownload_then_never_downloaded
  (i : string) (r : DownloadRecord) (w : World) (fs : list bool) :
  faults w = false :: false :: fs →
  find_record i (manifest w) = Some r →
  result (downloads.isDownloaded i) (after (downloads.deleteDownload i) w)
  ≠ Returned true.
Proof.
  intros Hfaults Hfound Htrue. unfold after in Htrue.
  destruct (deleteDownload_found i r w) as (w' & Heq & Hcases);
    [by rewrite Hfaults|done|].
  rewrite Heq in Htrue. simpl in Htrue.
  destruct Hcases as [(Hrejects & _) | (_ & Hfiles & Hm & _)];
    [by rewrite Hfaults in Hrejects|].
  apply (proj1 (isDownloaded_spec i w')) in Htrue as (r' & Hfound' & Hfile).
  rewrite Hfiles, elem_of_filter in Hfile. destruct Hfile as [Hunder _].
  destruct Hm as [Hm | [Hm | Hm]]; rewrite Hm in Hfound'.
  - assert (r' = r) as -> by congruence. by rewrite under_self in Hunder.
  - by rewrite remove_find in Hfound'.
  - done.
Qed.
(** [clearAll] when nothing rejects. *)
Lemma clearAll_reliable w :
  reliable w →
  ∃ w', downloads.clearAll documentDirectory w = (Returned (), w')
    ∧ reliable w'
    ∧ storage w' = delete DOWNLOADS_KEY (storage w)
    ∧ files w'
      = {[DOWNLOADS_DIR]}
        ∪ filter (λ q, under DOWNLOADS_DIR q = false) (files w).
Proof.
  intros Hw.
  unfold downloads.clearAll, downloads.init, try_catch, bind,
    FileSystem.deleteAsync, AsyncStorage.removeItem,
    FileSystem.getInfoAsync, FileSystem.makeDirectoryAsync.
  rewrite platform_reliable by done. simpl.
  rewrite platform_reliable by auto with reliable. simpl.
  rewrite platform_reliable by auto with reliable. simpl.
  rewrite bool_decide_false; simpl.
  - rewrite platform_reliable by auto 10 with reliable. simpl.
    eexists. split; [done|]. split_and!; [auto 10 with reliable|done..].
  - rewrite elem_of_filter, under_self. by intros [? _].
Qed.

(** X17. When nothing rejects, [clearAll] leaves an empty manifest and an
    empty downloads directory: [isDownloaded] returns false for every id,
    nothing is left under the directory but the directory itself, and the
    files elsewhere are as they were. *)
Theorem clearAll_clears (w : World) :
  reliable w →
  let w' := after (downloads.clearAll documentDirectory) w in
  manifest w' = []
  ∧ (∀ i, result (downloads.isDownloaded i) w' = Returned false)
  ∧ (∀ q, under DOWNLOADS_DIR q = true →
       q ∈ files w' ↔ q = DOWNLOADS_DIR)
  ∧ (∀ q, under DOWNLOADS_DIR q = false → q ∈ files w' ↔ q ∈ files w).
Proof.
  intros Hw w'. subst w'. unfold after.
  destruct (clearAll_reliable w Hw) as (w' & -> & Hw' & Hs & Hf). simpl.
  assert (manifest w' = []) as Hm.
  { unfold manifest. rewrite Hs. apply manifest_of_delete. }
  split_and!.
  - done.
  - intros i. by rewrite (proj2 (isDownloaded_spec i w') Hw'), Hm.
  - intros q Hq. rewrite Hf, elem_of_union, elem_of_singleton, elem_of_filter.
    split; [intros [-> | [Hq' _]]; [done|congruence]|by left].
  - intros q Hq. rewrite Hf, elem_of_union, elem_of_singleton, elem_of_filter.
    split; [intros [-> | [_ ?]]; [by rewrite under_self in Hq|done]|by right].
Qed.

(** X18. When nothing rejects, [download] of one id leaves [isDownloaded]
    of another id true where it was true. *)
Theorem download_keeps_other_downloads
  (i j n u : string) (t : MediaType) (w : World) :
  reliable w →
  i ≠ j →
  result (downloads.isDownloaded i) w = Returned true →
  result (downloads.isDownloaded i)
    (after (downloads.download documentDirectory j n u t) w)
  = Returned true.
Proof.
  intros Hw Hne Hbefore.
  apply (proj1 (isDownloaded_spec i w)) in Hbefore as (r & Hfound & Hfile).
  pose proof (download_no_file_lost j n u t w) as Hfiles.
  unfold no_file_lost, after in *.
  destruct (download_spec documentDirectory j n u t w)
    as (path & w' & Heq & _ & Hrel).
  rewrite Heq in *. simpl in *.
  destruct (Hrel Hw) as (_ & Hw' & _ & Hm).
  rewrite (proj2 (isDownloaded_spec i w') Hw'), Hm.
  rewrite upsert_find_other by done. rewrite Hfound.
  rewrite bool_decide_true; [done|]. by apply Hfiles.
Qed.

(** X19. The paths [download] returns tell the downloads apart: when
    nothing rejects, two calls return the same path only if they were given
    the same id and the same type. *)
Theorem download_paths_distinct
  (i n u : string) (t : MediaType) (i' n' u' : string) (t' : MediaType)
  (w w' : World) :
  reliable w → reliable w' →
  result (downloads.download documentDirectory i n u t) w
  = result (downloads.download documentDirectory i' n' u' t') w' →
  i = i' ∧ t = t'.
Proof.
  intros Hw Hw' Hsame. unfold result in Hsame.
  destruct (download_spec documentDirectory i n u t w)
    as (path & w1 & Heq & _ & Hrel).
  destruct (download_spec documentDirectory i' n' u' t' w')
    as (path' & w1' & Heq' & _ & Hrel').
  rewrite Heq, Heq' in Hsame. simpl in Hsame.
  destruct (Hrel Hw) as (-> & _). destruct (Hrel' Hw') as (-> & _).
  injection Hsame as Hsame. by apply local_path_inj in Hsame.
Qed.

(** X20. A second [download] of an id with the other type leaves the file
    of the first on disk, and [deleteDownload] of the id then removes the
    file of the second only: the first file stays, with no record.  When
    nothing rejects. *)
Theorem download_other_type_orphans_file
  (i n u n' u' : string) (w : World) :
  reliable w →
  let w1 := after (downloads.download documentDirectory i n u video) w in
  let w2 := after (downloads.download documentDirectory i n' u' pdf) w1 in
  let w3 := after (downloads.deleteDownload i) w2 in
  DOWNLOADS_DIR +:+ (i +:+ ".mp4") ∈ files w3
  ∧ (DOWNLOADS_DIR +:+ (i +:+ ".pdf") ∉ files w3)
  ∧ find_record i (manifest w3) = None.
Proof.
  intros Hw w1 w2 w3. subst w1 w2 w3.
  pose proof (download_no_file_lost i n' u' pdf
    (after (downloads.download documentDirectory i n u video) w)) as Hkept.
  unfold no_file_lost, after in *.
  destruct (download_spec documentDirectory i n u video w)
    as (path1 & w1 & Heq1 & _ & Hrel1).
  rewrite Heq1 in *. simpl in *.
  destruct (Hrel1 Hw) as (_ & Hw1 & Hfile1 & _).
  destruct (download_spec documentDirectory i n' u' pdf w1)
    as (path2 & w2 & Heq2 & _ & Hrel2).
  rewrite Heq2 in *. simpl in *.
  destruct (Hrel2 Hw1) as (_ & Hw2 & Hfile2 & Hm2).
  assert (find_record i (manifest w2)
          = Some (mkDownloadRecord i n' pdf u'
                    (DOWNLOADS_DIR +:+ (i +:+ ".pdf")) (clock w1)))
    as Hfound.
  { rewrite Hm2. apply (upsert_find (mkDownloadRecord i n' pdf u' _ _)). }
  destruct (deleteDownload_found i _ w2 (reliable_head w2 Hw2) Hfound)
    as (w3 & -> & [[Hrejects _] | (_ & Hfiles & _ & Hrel)]).
  { by apply reliable_head_tail in Hrejects. }
  destruct (Hrel Hw2) as [_ Hm3]. simpl in *. rewrite Hm3, Hfiles.
  split_and!.
  - apply elem_of_filter. split; [|by apply Hkept].
    apply under_same_length.
    + by rewrite !length_app.
    + intros Heq. by apply (local_path_inj _ _ _ video pdf) in Heq as [_ ?].
  - rewrite elem_of_filter, under_self. by intros [? _].
  - apply remove_find.
Qed.
(** X24. [download] returns absent exactly when the fetch of the file is
    rejected, and then adds no file and no record; otherwise it returns the
    path of the file, whether or not [init] before it or the saving of the
    record after it was rejected. *)
Theorem download_absent_iff_fetch_rejected
  (i n u : string) (t : MediaType) (w : World) :
  let ready := after (downloads.init documentDirectory) w in
  let w' := after (downloads.download documentDirectory i n u t) w in
  (head (faults ready) = Some true →
   result (downloads.download documentDirectory i n u t) w = Returned None
   ∧ files w' = files ready ∧ storage w' = storage w)
  ∧ (head (faults ready) ≠ Some true →
     result (downloads.download documentDirectory i n u t) w
     = Returned (Some (DOWNLOADS_DIR +:+ (i +:+ extension_of t)))).
Proof.
  intros ready w'. subst ready w'.
  unfold result, after, downloads.download, try_catch, bind.
  destruct (init_spec documentDirectory w) as (w1 & -> & Hs & _).
  fold (extension_of t). unfold FileSystem.downloadAsync. simpl. split.
  - intros Hrejected. by rewrite platform_rejected.
  - intros Haccepted. rewrite platform_accepted by done.
    match goal with
    | |- context [downloads.saveRecord ?r ?w] =>
        destruct (saveRecord_spec r w) as (records & w2 & -> & _)
    end.
    done.
Qed.
End downloads_more.

(** ** The Downloads screen and the manifest *)

Section screen.
Context `{!JSON (list DownloadRecord)} `{!JSONLawful (list DownloadRecord)}
  `{!JSONPlain (list DownloadRecord)}.

(** X21. Deleting, from the Downloads screen, the file of a record of the
    manifest takes the file off the disk and the entry off the screen, and
    leaves the manifest as it was: [isDownloaded] of the id then returns
    false, and a later [deleteDownload] of the id removes the record.  When
    nothing rejects. *)
Theorem screen_delete_leaves_record
  (file : DownloadsScreen.DownloadedFile) (screen : DownloadsScreen.Screen)
  (i : string) (r : DownloadRecord) (w : World) :
  reliable w →
  find_record i (manifest w) = Some r →
  DownloadsScreen.uri file = localUri r →
  localUri r ∈ files w →
  let w' := after (DownloadsScreen.handleDelete file screen) w in
  result (DownloadsScreen.handleDelete file screen) w
    = Returned
        (DownloadsScreen.mkScreen
           (List.filter
              (λ d, negb (bool_decide
                            (DownloadsScreen.id d = DownloadsScreen.id file)))
              (DownloadsScreen.downloads screen))
           (DownloadsScreen.alerts screen))
  ∧ manifest w' = manifest w
  ∧ result (downloads.isDownloaded i) w' = Returned false
  ∧ find_record i (manifest (after (downloads.deleteDownload i) w')) = None.
Proof.
  intros Hw Hfound Huri Hfile w'. subst w'.
  unfold result, after, DownloadsScreen.handleDelete, try_catch, bind,
    DownloadsScreen.deleteAsync.
  rewrite platform_reliable by done. simpl.
  rewrite Huri, bool_decide_true by done. simpl.
  match goal with
  | |- context [downloads.isDownloaded i ?w] => set (w1 := w)
  end.
  assert (reliable w1) as Hw1 by (subst w1; auto with reliable).
  assert (manifest w1 = manifest w) as Hm1 by done.
  split_and!; [done..| |].
  - fold (result (downloads.isDownloaded i) w1).
    rewrite (proj2 (isDownloaded_spec i w1) Hw1), Hm1, Hfound.
    rewrite bool_decide_false; [done|].
    subst w1. simpl. rewrite elem_of_filter, under_self. by intros [? _].
  - destruct (deleteDownload_spec i w1) as (w2 & -> & _ & _ & Hrel).
    by destruct (Hrel Hw1).
Qed.

(** X22. The delete button on a file that is no longer on disk deletes
    nothing and raises an alert; the screen keeps listing the file. *)
Theorem screen_delete_missing_file
  (file : DownloadsScreen.DownloadedFile) (screen : DownloadsScreen.Screen)
  (w : World) :
  DownloadsScreen.uri file ∉ files w →
  result (DownloadsScreen.handleDelete file screen) w
    = Returned
        (DownloadsScreen.mkScreen (DownloadsScreen.downloads screen)
           ("Failed to delete file" :: DownloadsScreen.alerts screen))
  ∧ files (after (DownloadsScreen.handleDelete file screen) w) = files w
  ∧ storage (after (DownloadsScreen.handleDelete file screen) w) = storage w.
Proof.
  intros Hmissing.
  unfold result, after, DownloadsScreen.handleDelete, try_catch, bind,
    DownloadsScreen.deleteAsync.
  platform_case; simpl; [done|].
  by rewrite bool_decide_false.
Qed.
End screen.

(** X23. The age [formatDate] shows never has a zero or an overflowing
    count: a date less than a minute old, or in the future, shows as
    "Just now"; then come 1 to 59 minutes, 1 to 23 hours and 1 to 6 days;
    from seven days on the date is shown in the locale's format. *)
Theorem formatDate_brackets
  (toLocaleDateString : Z → string) (date : Z) (w : World) :
  let age := clock w - date in
  let shown :=
    result (DownloadsScreen.formatDate toLocaleDateString date) w in
  (age < 60000 → shown = Returned "Just now")
  ∧ (60000 ≤ age < 3600000 →
     1 ≤ age / 60000 ≤ 59
     ∧ shown
       = Returned (DownloadsScreen.number_text (age / 60000) +:+ "m ago"))
  ∧ (3600000 ≤ age < 86400000 →
     1 ≤ age / 3600000 ≤ 23
     ∧ shown
       = Returned (DownloadsScreen.number_text (age / 3600000) +:+ "h ago"))
  ∧ (86400000 ≤ age < 604800000 →
     1 ≤ age / 86400000 ≤ 6
     ∧ shown
       = Returned (DownloadsScreen.number_text (age / 86400000) +:+ "d ago"))
  ∧ (604800000 ≤ age → shown = Returned (toLocaleDateString date)).
Proof.
  intros age shown. subst shown.
  unfold result, DownloadsScreen.formatDate, bind, Date_now. simpl.
  fold age.
  destruct (Z.ltb_spec (age / 60000) 1);
    destruct (Z.ltb_spec (age / 60000) 60);
    destruct (Z.ltb_spec (age / 3600000) 24);
    destruct (Z.ltb_spec (age / 86400000) 7);
    simpl; split_and!; intros; try split; try done;
    Z.div_mod_to_equations; lia.
Qed.

(** ** The further properties on concrete devices *)

Lemma lesson_and_topics_reliable : reliable lesson_and_topics.
Proof. vm_compute. constructor. Qed.

Lemma lesson_recorded :
  find_record "t1" (manifest lesson_downloaded) = Some lesson.
Proof. vm_compute. reflexivity. Qed.

(** Caching, reading or removing the terms of a subject leaves the cached
    topics as they were. *)
Lemma cache_entries_independent_witness :
  let cached := storage topics_cached !! (CACHE_PREFIX +:+ topics_key) in
  storage (after (cache.set "terms_s1" topics_payload) topics_cached)
    !! (CACHE_PREFIX +:+ topics_key) = cached
  ∧ storage (after (cache.get (T:=json) "terms_s1") topics_cached)
    !! (CACHE_PREFIX +:+ topics_key) = cached
  ∧ storage (after (cache.remove "terms_s1") topics_cached)
    !! (CACHE_PREFIX +:+ topics_key) = cached.
Proof.
  apply (cache_entries_independent "terms_s1" topics_key topics_payload
           topics_cached).
  vm_compute. discriminate.
Defined.

(** [clear] on the device with the lesson and the topics keeps the record
    and the file of the lesson. *)
Lemma cache_leaves_downloads_alone_witness :
  manifest (perform (T:=json) documents cache_clear lesson_and_topics)
  = manifest lesson_and_topics
  ∧ files (perform (T:=json) documents cache_clear lesson_and_topics)
    = files lesson_and_topics.
Proof.
  apply (cache_leaves_downloads_alone (T:=json) documents cache_clear
           lesson_and_topics).
  reflexivity.
Defined.

(** [clearAll] on the same device keeps the cached topics. *)
Lemma downloads_leave_cache_alone_witness :
  storage (perform (T:=json) documents downloads_clearAll lesson_and_topics)
    !! (CACHE_PREFIX +:+ topics_key)
  = storage lesson_and_topics !! (CACHE_PREFIX +:+ topics_key).
Proof.
  apply (downloads_leave_cache_alone (T:=json) documents downloads_clearAll
           lesson_and_topics).
  - reflexivity.
  - vm_compute. discriminate.
Defined.

(** The entry whose text is not JSON is reported absent and stays. *)
Lemma cache_get_unreadable_witness :
  result (cache.get (T:=json) topics_key) topics_undefined = Returned None
  ∧ storage (after (cache.get (T:=json) topics_key) topics_undefined)
    = storage topics_undefined.
Proof.
  apply (cache_get_unreadable (T:=json) topics_key "undefined"
           topics_undefined).
  - vm_compute. reflexivity.
  - reflexivity.
Defined.

(** A [set] of the topics that the storage rejects keeps the topics cached
    before. *)
Lemma cache_set_failure_keeps_entry_witness :
  result (cache.set topics_key (JArray [])) topics_cached_failing_storage
  = Returned ()
  ∧ storage (after (cache.set topics_key (JArray []))
               topics_cached_failing_storage)
    = storage topics_cached_failing_storage.
Proof.
  apply (cache_set_failure_keeps_entry topics_key (JArray [])
           topics_cached_failing_storage).
  right. reflexivity.
Defined.

(** After [clear], the topics are absent, also for a [get] whose read is
    rejected, a day later. *)
Lemma cache_get_after_clear_witness :
  result (cache.get (T:=json) topics_key)
    (with_faults [true] (elapse 86400000 (after cache.clear topics_cached)))
  = Returned None.
Proof.
  apply (cache_get_after_clear (T:=json) topics_key topics_cached).
  - vm_compute. constructor.
  - vm_compute. reflexivity.
Defined.

(** The topics and the terms of the same id have different entries. *)
Lemma cacheKeys_never_collide_witness :
  key_of Topics "abc" = "topics_abc"
  ∧ key_of Terms "abc" = "terms_abc"
  ∧ CACHE_PREFIX +:+ key_of Topics "abc" ≠ CACHE_PREFIX +:+ key_of Terms "abc".
Proof.
  split_and!; [reflexivity..|].
  apply (cacheKeys_never_collide Topics Terms "abc" "abc"). discriminate.
Defined.

(** [clearAll] returns when the file system rejects the deletion of the
    directory. *)
Lemma guarded_calls_never_throw_witness :
  completion (T:=json) documents downloads_clearAll
    (with_faults [true] lesson_downloaded)
  = Returned ().
Proof.
  apply (guarded_calls_never_throw (T:=json) documents downloads_clearAll).
  reflexivity.
Defined.

(** The manifest replaced by the handout alone reads back as the handout
    alone. *)
Lemma saveAllRecords_getAllRecords_witness :
  result downloads.getAllRecords
    (after (downloads.saveAllRecords [handout]) lesson_downloaded)
  = Returned [handout].
Proof.
  apply (saveAllRecords_getAllRecords [handout] lesson_downloaded).
  vm_compute. constructor.
Defined.

(** The handout saved beside the lesson: both are found, the handout
    last. *)
Lemma saveRecord_getDownload_witness :
  let w' := after (downloads.saveRecord handout) lesson_downloaded in
  result (downloads.getDownload "p7") w' = Returned (Some handout)
  ∧ result (downloads.getDownload "t1") w' = Returned (Some lesson)
  ∧ manifest w' = [lesson; handout].
Proof.
  intros w'.
  destruct (saveRecord_getDownload handout lesson_downloaded)
    as (Hsaved & Hothers & Hnew).
  - vm_compute. constructor.
  - split_and!.
    + exact Hsaved.
    + rewrite <- lesson_recorded. apply Hothers. discriminate.
    + apply Hnew. vm_compute. reflexivity.
Defined.

(** The handout saved when the read of the manifest is rejected: the record
    of the lesson is lost. *)
Lemma saveRecord_rejected_read_drops_records_witness :
  manifest lesson_downloaded_failing_read = [lesson]
  ∧ manifest (after (downloads.saveRecord handout)
                lesson_downloaded_failing_read)
    = [handout].
Proof.
  split; [vm_compute; reflexivity|].
  apply (saveRecord_rejected_read_drops_records handout
           lesson_downloaded_failing_read []).
  reflexivity.
Defined.

(** The download of the lesson on a fresh installation returns the path of
    its file. *)
Lemma download_result_is_truthful_witness :
  localUri lesson ∈ files lesson_downloaded.
Proof.
  destruct (download_result_is_truthful documents "t1" "Fractions"
              "https://cdn.example/t1.mp4" video fresh_install)
    as (Hpath & _).
  apply (Hpath (localUri lesson)). vm_compute. reflexivity.
Defined.

(** Deleting the lesson removes its record and its file. *)
Lemma deleteDownload_removes_record_and_file_witness :
  let w' := after (downloads.deleteDownload "t1") lesson_downloaded in
  manifest w' = [] ∧ (localUri lesson ∉ files w').
Proof.
  intros w'.
  destruct (deleteDownload_removes_record_and_file "t1" lesson
              lesson_downloaded) as (Hmanifest & _ & Hfile & _).
  - vm_compute. constructor.
  - exact lesson_recorded.
  - split; [exact Hmanifest|exact Hfile].
Defined.

(** When the disk rejects the deletion, the lesson stays. *)
Lemma deleteDownload_rejected_keeps_record_witness :
  result (downloads.deleteDownload "t1") lesson_downloaded_failing_disk
  = Returned ()
  ∧ storage (after (downloads.deleteDownload "t1")
               lesson_downloaded_failing_disk)
    = storage lesson_downloaded_failing_disk
  ∧ files (after (downloads.deleteDownload "t1")
             lesson_downloaded_failing_disk)
    = files lesson_downloaded_failing_disk.
Proof.
  apply (deleteDownload_rejected_keeps_record "t1" lesson
           lesson_downloaded_failing_disk []).
  - reflexivity.
  - vm_compute. reflexivity.
Defined.

(** When the storage rejects the rewriting of the manifest, the record of
    the lesson stays, and [isDownloaded] does not return true. *)
Lemma deleteDownload_then_never_downloaded_witness :
  find_record "t1"
    (manifest (after (downloads.deleteDownload "t1")
                 lesson_downloaded_failing_write))
  = Some lesson
  ∧ result (downloads.isDownloaded "t1")
      (after (downloads.deleteDownload "t1") lesson_downloaded_failing_write)
    ≠ Returned true.
Proof.
  split; [vm_compute; reflexivity|].
  apply (deleteDownload_then_never_downloaded "t1" lesson
           lesson_downloaded_failing_write [false; true]).
  - reflexivity.
  - vm_compute. reflexivity.
Defined.

(** After [clearAll], the lesson is not downloaded. *)
Lemma clearAll_clears_witness :
  let w' := after (downloads.clearAll documents) lesson_downloaded in
  manifest w' = []
  ∧ result (downloads.isDownloaded "t1") w' = Returned false.
Proof.
  intros w'.
  destruct (clearAll_clears documents lesson_downloaded)
    as (Hmanifest & Hnone & _).
  - vm_compute. constructor.
  - split; [exact Hmanifest|apply Hnone].
Defined.

(** The download of the handout leaves the lesson downloaded. *)
Lemma download_keeps_other_downloads_witness :
  result (downloads.isDownloaded "t1")
    (after (downloads.download documents "p7" "Fractions, exercises"
              "https://cdn.example/p7.pdf" pdf) lesson_downloaded)
  = Returned true.
Proof.
  apply (download_keeps_other_downloads documents "t1" "p7").
  - vm_compute. constructor.
  - discriminate.
  - vm_compute. reflexivity.
Defined.

(** The lesson downloaded twice, from two addresses, goes to one path. *)
Lemma download_paths_distinct_witness :
  result (downloads.download documents "t1" "Fractions"
            "https://cdn.example/t1.mp4" video) fresh_install
  = result (downloads.download documents "t1" "Fractions (HD)"
              "https://cdn.example/hd/t1.mp4" video) lesson_downloaded
  ∧ "t1" = "t1" ∧ video = video.
Proof.
  assert (result (downloads.download documents "t1" "Fractions"
                    "https://cdn.example/t1.mp4" video) fresh_install
          = result (downloads.download documents "t1" "Fractions (HD)"
                      "https://cdn.example/hd/t1.mp4" video) lesson_downloaded)
    as Hsame by (vm_compute; reflexivity).
  split; [exact Hsame|].
  apply (download_paths_distinct documents "t1" "Fractions"
           "https://cdn.example/t1.mp4" video "t1" "Fractions (HD)"
           "https://cdn.example/hd/t1.mp4" video fresh_install
           lesson_downloaded).
  - constructor.
  - vm_compute. constructor.
  - exact Hsame.
Defined.

(** The lesson downloaded as a video, then as a document, then deleted: the
    video stays on disk. *)
Lemma download_other_type_orphans_file_witness :
  let w2 := after (downloads.download documents "t1" "Fractions"
                     "https://cdn.example/t1.pdf" pdf) lesson_downloaded in
  let w3 := after (downloads.deleteDownload "t1") w2 in
  localUri lesson ∈ files w3
  ∧ (downloads.DOWNLOADS_DIR documents +:+ "t1.pdf" ∉ files w3)
  ∧ find_record "t1" (manifest w3) = None.
Proof.
  apply (download_other_type_orphans_file documents "t1" "Fractions"
           "https://cdn.example/t1.mp4" "Fractions"
           "https://cdn.example/t1.pdf" fresh_install).
  constructor.
Defined.

(** The lesson deleted from the screen: its record stays in the manifest,
    and [isDownloaded] returns false. *)
Lemma screen_delete_leaves_record_witness :
  let w' :=
    after (DownloadsScreen.handleDelete lesson_listed downloads_listed)
      lesson_downloaded in
  result (DownloadsScreen.handleDelete lesson_listed downloads_listed)
    lesson_downloaded
  = Returned (DownloadsScreen.mkScreen [] [])
  ∧ manifest w' = [lesson]
  ∧ result (downloads.isDownloaded "t1") w' = Returned false.
Proof.
  intros w'.
  destruct (screen_delete_leaves_record lesson_listed downloads_listed "t1"
              lesson lesson_downloaded)
    as (Hscreen & Hmanifest & Hgone & _).
  - vm_compute. constructor.
  - exact lesson_recorded.
  - reflexivity.
  - vm_compute. reflexivity.
  - split_and!; [exact Hscreen| |exact Hgone].
    fold w' in Hmanifest. rewrite Hmanifest. vm_compute. reflexivity.
Defined.

(** The delete button once the file of the lesson has been removed from
    outside: an alert, and the file still listed. *)
Lemma screen_delete_missing_file_witness :
  result (DownloadsScreen.handleDelete lesson_listed downloads_listed)
    lesson_file_removed
  = Returned (DownloadsScreen.mkScreen [lesson_listed]
                ["Failed to delete file"]).
Proof.
  apply (screen_delete_missing_file lesson_listed downloads_listed
           lesson_file_removed).
  apply not_elem_of_difference. right. by apply elem_of_singleton.
Defined.

(** A file downloaded five minutes ago, and one downloaded three days
    ago. *)
Lemma formatDate_brackets_witness :
  result (DownloadsScreen.formatDate (λ _, "11/14/2023")
            (1700000000000 - 300000)) fresh_install
  = Returned "5m ago"
  ∧ result (DownloadsScreen.formatDate (λ _, "11/11/2023")
              (1700000000000 - 3 * 86400000 - 5)) fresh_install
    = Returned "3d ago".
Proof.
  split.
  - apply (formatDate_brackets (λ _, "11/14/2023")
             (1700000000000 - 300000) fresh_install).
    vm_compute. split; [discriminate|reflexivity].
  - apply (formatDate_brackets (λ _, "11/11/2023")
             (1700000000000 - 3 * 86400000 - 5) fresh_install).
    vm_compute. split; [discriminate|reflexivity].
Defined.

(** [init] on a fresh installation creates the downloads directory, and
    nothing else. *)
Lemma init_ensures_directory_witness :
  files (after (downloads.init documents) fresh_install)
  = {[downloads.DOWNLOADS_DIR documents]} ∪ files fresh_install.
Proof.
  destruct (init_ensures_directory documents fresh_install)
    as (_ & _ & Hreliable).
  apply Hreliable. constructor.
Defined.

(** Offline, the download of the lesson returns absent, and leaves nothing
    but the directory. *)
Lemma download_absent_iff_fetch_rejected_witness :
  let w' := after (downloads.download documents "t1" "Fractions"
                     "https://cdn.example/t1.mp4" video)
              fresh_install_offline in
  result (downloads.download documents "t1" "Fractions"
            "https://cdn.example/t1.mp4" video) fresh_install_offline
  = Returned None
  ∧ files w' = {[downloads.DOWNLOADS_DIR documents]}
  ∧ storage w' = ∅.
Proof.
  intros w'.
  destruct (download_absent_iff_fetch_rejected documents "t1" "Fractions"
              "https://cdn.example/t1.mp4" video fresh_install_offline)
    as (Hrejected & _).
  destruct Hrejected as (Habsent & Hfiles & Hstorage); [reflexivity|].
  split_and!; [exact Habsent| |exact Hstorage].
  fold w' in Hfiles. rewrite Hfiles. vm_compute. reflexivity.
Defined.

(** The expired topics, when their removal is rejected: absent, and still
    in the storage. *)
Lemma cache_get_expired_purge_rejected_witness :
  result (cache.get (T:=json) topics_key) topics_expired_failing_removal
  = Returned None
  ∧ storage (after (cache.get (T:=json) topics_key)
               topics_expired_failing_removal)
    = storage topics_expired_failing_removal
  ∧ faults (after (cache.get (T:=json) topics_key)
              topics_expired_failing_removal)
    = [].
Proof.
  eapply (cache_get_expired_purge_rejected (T:=json) topics_key _
            (mkCacheItem topics_payload 1700000000000)
            topics_expired_failing_removal []).
  - vm_compute. reflexivity.
  - discriminate.
  - vm_compute. reflexivity.
  - vm_compute. reflexivity.
  - reflexivity.
Defined.

(** ** Download, delete, and [isDownloaded], one rejection at a time *)

Lemma rejects_head w : ¬ rejects 0 w → head (faults w) ≠ Some true.
Proof. unfold rejects. by rewrite head_lookup. Qed.

Lemma rejects_tail k w : rejects k (tick w) ↔ rejects (S k) w.
Proof. unfold rejects. simpl. by rewrite lookup_tail. Qed.

Lemma rejects_faults k w w' :
  faults w' = tail (faults w) → rejects k w' ↔ rejects (S k) w.
Proof. unfold rejects. intros ->. by rewrite lookup_tail. Qed.

#[global] Instance rejects_dec k w : Decision (rejects k w).
Proof. unfold rejects. apply _. Qed.

Section download_delete.
Context `{!JSON (list DownloadRecord)} `{!JSONLawful (list DownloadRecord)}
  `{!JSONPlain (list DownloadRecord)}.
Variable documentDirectory : string.
Abbreviation DOWNLOADS_DIR := (downloads.DOWNLOADS_DIR documentDirectory).

(** [saveAllRecords] when the storage accepts the write. *)
Lemma saveAllRecords_accepted records w :
  ¬ rejects 0 w →
  ∃ w', downloads.saveAllRecords records w = (Returned (), w')
    ∧ manifest w' = records ∧ files w' = files w
    ∧ faults w' = tail (faults w).
Proof.
  intros Haccepted%rejects_head.
  unfold downloads.saveAllRecords, try_catch, bind, JSON_.stringify.
  destruct (JSON_stringify_total records) as [text Htext].
  rewrite Htext. simpl. unfold AsyncStorage.setItem.
  rewrite platform_accepted by done. simpl.
  eexists. split; [done|]. split_and!; [|done..].
  unfold manifest. simpl. by apply manifest_of_insert.
Qed.

(** [saveRecord] when the storage accepts the write, whether or not it
    accepted the read. *)
Lemma saveRecord_write_accepted record w :
  ¬ rejects 1 w →
  ∃ w', downloads.saveRecord record w = (Returned (), w')
    ∧ find_record (id record) (manifest w') = Some record
    ∧ files w' = files w
    ∧ faults w' = tail (tail (faults w)).
Proof.
  intros Haccepted.
  pose proof (getAllRecords_faults w) as Hfaults.
  unfold downloads.saveRecord, try_catch, bind. unfold after in Hfaults.
  destruct (getAllRecords_spec w) as (records & w1 & Heq & Hquiet & _).
  rewrite Heq in *. simpl in Hfaults. fold (upsert record records).
  destruct (saveAllRecords_accepted (upsert record records) w1)
    as (w' & -> & Hm & Hf & Hfs).
  { by rewrite (rejects_faults 0 w w1). }
  exists w'. split; [done|]. destruct Hquiet as (_ & Hf1 & _).
  split_and!.
  - rewrite Hm. apply upsert_find.
  - congruence.
  - by rewrite Hfs, Hfaults.
Qed.

(** [isDownloaded] when the platform accepts its two calls: the read of the
    manifest and the query for the file. *)
Lemma isDownloaded_accepted i w :
  ¬ rejects 0 w → ¬ rejects 1 w →
  result (downloads.isDownloaded i) w
  = Returned (match find_record i (manifest w) with
              | Some r => bool_decide (localUri r ∈ files w)
              | None => false
              end).
Proof.
  intros Hread Hquery.
  pose proof (getDownload_accepted i w (rejects_head w Hread)) as Hrecord.
  pose proof (getDownload_faults i w) as Hfaults.
  unfold result, after, downloads.isDownloaded, bind in *.
  destruct (getDownload_spec i w) as (record & w1 & Heq & Hquiet & _).
  rewrite Heq in *. simpl in *. injection Hrecord as ->.
  destruct (find_record i (manifest w)) as [r|]; [|done].
  unfold FileSystem.getInfoAsync. rewrite platform_accepted.
  - simpl. destruct Hquiet as (_ & -> & _). done.
  - apply rejects_head. by rewrite (rejects_faults 0 w w1).
Qed.

(** [isDownloaded] when the storage rejects the read of the manifest. *)
Lemma isDownloaded_read_rejected i w :
  rejects 0 w → result (downloads.isDownloaded i) w = Returned false.
Proof.
  unfold rejects. rewrite <- head_lookup. intros Hrejected.
  unfold result, downloads.isDownloaded, downloads.getDownload,
    downloads.getAllRecords, try_catch, bind, AsyncStorage.getItem.
  by rewrite platform_rejected.
Qed.

(** C4, as the code has it.  On a device whose manifest is readable
    (absent, empty, or the JSON of a list of records: the entries on which
    [JSON_parse] follows [JSON.parse]):

    - a [download] that returns a path, the storage having accepted the
      write of the manifest (the third platform call after [init]: the
      fetch, the read of the manifest, its write), returns the path derived
      from the id and the type, leaves its record in the manifest and the
      file at the path, and [isDownloaded] of the id then returns true when
      the platform accepts its two calls;
    - after a [deleteDownload] whose read of the manifest and deletion of
      the file the platform accepted, [isDownloaded] of the id returns false
      when the platform accepts its query for the file, if it comes to
      it. *)
Theorem download_delete_isDownloaded
  (i n u : string) (t : MediaType) (w : World) :
  manifest_readable w →
  let ready := after (downloads.init documentDirectory) w in
  let w1 := after (downloads.download documentDirectory i n u t) w in
  let w2 := after (downloads.deleteDownload i) w in
  (∀ path,
     result (downloads.download documentDirectory i n u t) w
       = Returned (Some path) →
     ¬ rejects 2 ready →
     path = DOWNLOADS_DIR +:+ (i +:+ extension_of t)
     ∧ find_record i (manifest w1)
       = Some (mkDownloadRecord i n t u path (clock w))
     ∧ path ∈ files w1
     ∧ (¬ rejects 0 w1 → ¬ rejects 1 w1 →
        result (downloads.isDownloaded i) w1 = Returned true))
  ∧ (¬ rejects 0 w → ¬ rejects 1 w → ¬ rejects 1 w2 →
     result (downloads.isDownloaded i) w2 = Returned false).
Proof.
  intros _ ready w1 w2. split.
  - subst ready w1 w2. intros path.
    unfold result at 1. unfold after, downloads.download, try_catch, bind.
    destruct (init_spec documentDirectory w) as (w0 & -> & _ & Hclock & _).
    fold (extension_of t). unfold FileSystem.downloadAsync. simpl.
    destruct (decide (head (faults w0) = Some true)) as [Hrejected|Hfetched].
    { by rewrite platform_rejected. }
    rewrite platform_accepted by done. intros Hpath Hwrite.
    match goal with
    | |- context [downloads.saveRecord ?r ?w] =>
        destruct (saveRecord_write_accepted r w)
          as (w' & Hsave & Hrecord & Hfiles & _)
    end.
    { by rewrite (rejects_faults 1 w0). }
    rewrite Hsave in *. simpl in *. injection Hpath as <-.
    rewrite Hclock in Hrecord.
    assert (DOWNLOADS_DIR +:+ (i +:+ extension_of t) ∈ files w') as Hfile.
    { rewrite Hfiles. by apply elem_of_union_l, elem_of_singleton. }
    split_and!; [done..|].
    intros Hread Hquery. rewrite isDownloaded_accepted by done.
    rewrite Hrecord. simpl. by rewrite bool_decide_true.
  - subst w2. intros Hread Hdelete Hquery.
    destruct (decide (rejects 0 (after (downloads.deleteDownload i) w)))
      as [Hrejected|Haccepted].
    { by apply isDownloaded_read_rejected. }
    rewrite isDownloaded_accepted by done.
    destruct (find_record i (manifest w)) as [r|] eqn:Hfound.
    + unfold after.
      destruct (deleteDownload_found i r w (rejects_head w Hread) Hfound)
        as (w' & -> & [(Hrejects & _) | (_ & Hfiles & Hm & _)]).
      { exfalso. apply Hdelete. unfold rejects.
        by rewrite <- lookup_tail, <- head_lookup. }
      simpl.
      destruct Hm as [Hm | [Hm | Hm]]; rewrite Hm.
      * rewrite Hfound, bool_decide_false; [done|].
        rewrite Hfiles, elem_of_filter, under_self. by intros [? _].
      * by rewrite remove_find.
      * done.
    + unfold after.
      destruct (deleteDownload_spec i w) as (w' & -> & _ & Hquiet & _).
      simpl. destruct (Hquiet Hfound) as (Hs & _).
      unfold manifest in *. by rewrite Hs, Hfound.
Qed.
End download_delete.

(** The lesson downloaded on a fresh installation when the storage rejects
    the read of the manifest, and accepts its write: it is downloaded.  The
    lesson deleted when the storage rejects the rewriting of the manifest:
    it is not. *)
Lemma download_delete_isDownloaded_witness :
  result (downloads.isDownloaded "t1")
    (after (downloads.download documents "t1" "Fractions"
              "https://cdn.example/t1.mp4" video) fresh_install_failing_read)
  = Returned true
  ∧ result (downloads.isDownloaded "t1")
      (after (downloads.deleteDownload "t1") lesson_downloaded_failing_write)
    = Returned false.
Proof.
  split.
  - destruct (download_delete_isDownloaded documents "t1" "Fractions"
                "https://cdn.example/t1.mp4" video fresh_install_failing_read)
      as (Hdownload & _); [exact I|].
    destruct (Hdownload (localUri lesson)) as (_ & _ & _ & Hdownloaded).
    + vm_compute. reflexivity.
    + vm_compute. discriminate.
    + apply Hdownloaded; vm_compute; discriminate.
  - destruct (download_delete_isDownloaded documents "t1" "Fractions"
                "https://cdn.example/t1.mp4" video
                lesson_downloaded_failing_write)
      as (_ & Hdelete).
    + right. vm_compute. eexists. reflexivity.
    + apply Hdelete; vm_compute; discriminate.
Defined.

(** [deleteDownload] of the lesson when the file system rejects the deletion
    of the file: the lesson is still downloaded. *)
Lemma deleteDownload_rejected_still_downloaded :
  result (downloads.isDownloaded "t1")
    (after (downloads.deleteDownload "t1") lesson_downloaded_failing_disk)
  = Returned true.
Proof. vm_compute. reflexivity. Qed.
